(** * LangSmith tracing over the REST API: the notebook's client code

    A shallow embedding of [langsmith.ipynb]: the walkthrough cells that log
    one run by hand, the [RunLogger] class ([post_run], [patch_run]) and the
    traced [fibonacci] example, followed by the properties of the run-tracing
    specification checked against that code.

    The notebook talks to three things outside itself: the operating system's
    randomness (through [uuid.uuid4]), the wall clock (through
    [datetime.datetime.utcnow]) and the HTTP service (through [requests]).
    They are gathered in an environment [Env]; the program state [World]
    records how much of each has been consumed and every request handed to
    the HTTP layer. *)

From Stdlib Require Import ZArith List String Ascii Bool Lia.
Import ListNotations.
Open Scope string_scope.
Open Scope Z_scope.

(** ** JSON payloads *)

#[local] Set Warnings "-register-all".

Inductive json : Type :=
| JNull
| JInt (z : Z)
| JStr (s : string)
| JList (items : list json)
| JObj (fields : list (string * json)).

(** A Python dict literal keeps its keys in the order written. *)
Definition jkeys (j : json) : list string :=
  match j with
  | JObj fields => map fst fields
  | _ => []
  end.

Fixpoint assoc (k : string) (fields : list (string * json)) : option json :=
  match fields with
  | [] => None
  | (k', v) :: rest => if String.eqb k k' then Some v else assoc k rest
  end.

Definition jget (k : string) (j : json) : option json :=
  match j with
  | JObj fields => assoc k fields
  | _ => None
  end.

(** [Optional[str]] and [Optional[dict]] arguments as [requests] serialises
    them: [None] becomes [null], the key stays. *)
Definition opt_str (o : option string) : json :=
  match o with Some s => JStr s | None => JNull end.

Definition opt_json (o : option json) : json :=
  match o with Some j => j | None => JNull end.

(** ** HTTP requests and the environment *)

Inductive method := POST | PATCH.

Record Request := mkRequest {
  verb : method;
  url : string;
  body : json;
  headers : list (string * option string)
}.

(** Python exceptions, by what [except Exception] does with them: the
    instances of [Exception] (those of [requests] among them) are caught,
    the others ([KeyboardInterrupt], [SystemExit]) pass through.  Of an
    exception only its text [str(e)] is ever used. *)
Inductive exn :=
| Exception (msg : string)
| Interrupt (msg : string).

(** An exception written as its text is an instance of [Exception]. *)
Coercion Exception : string >-> exn.

Definition str (e : exn) : string :=
  match e with
  | Exception msg => msg
  | Interrupt msg => msg
  end.

(** What one call into [requests] does: it answers with some status code
    (any code: the notebook never inspects it) or raises.  The source passes
    no [timeout]; a call that never comes back is outside this model. *)

Inductive outcome :=
| Responded (status : Z)
| Failed (e : exn).

Record Env := mkEnv {
  entropy : nat -> Z;           (* the k-th read of os.urandom(16), as an integer *)
  clock : nat -> string;        (* utcnow().isoformat() at the k-th reading *)
  net : nat -> outcome;         (* fate of the k-th request handed to requests *)
  LANGSMITH_API_KEY : option string   (* os.environ.get("LANGSMITH_API_KEY") *)
}.

Definition LANGCHAIN_ENDPOINT : string := "https://api.smith.langchain.com".
Definition project_name : string := "default".

(** [f"{LANGCHAIN_ENDPOINT}/runs"] and [f"{LANGCHAIN_ENDPOINT}/runs/{run_id}"] *)
Definition runs_url : string := LANGCHAIN_ENDPOINT ++ "/runs".

Definition run_url (run_id : string) : string :=
  LANGCHAIN_ENDPOINT ++ "/runs/" ++ run_id.

Record World := mkWorld {
  draws : nat;                  (* uuid4 calls made so far *)
  ticks : nat;                  (* clock readings made so far *)
  wire : list Request;          (* requests handed to the HTTP layer, oldest first *)
  events : list json            (* the notebook's global list [events] *)
}.

Definition world0 : World := mkWorld 0 0 [] [].

(** ** The effect monad: state, Python exceptions, and fuel *)

Inductive result (A : Type) : Type :=
| Ok (a : A)
| Raise (e : exn)
| OutOfFuel.
Arguments Ok {A} a.
Arguments Raise {A} e.
Arguments OutOfFuel {A}.

Definition M (A : Type) : Type := World -> result A * World.

Definition ret {A} (a : A) : M A := fun w => (Ok a, w).

Definition bind {A B} (m : M A) (k : A -> M B) : M B :=
  fun w =>
    match m w with
    | (Ok a, w') => k a w'
    | (Raise e, w') => (Raise e, w')
    | (OutOfFuel, w') => (OutOfFuel, w')
    end.

Definition raise {A} (e : exn) : M A := fun w => (Raise e, w).

(** [try: body  except Exception as e: handler(e)]: only an instance of
    [Exception] reaches the handler. *)
Definition try_except {A} (body : M A) (handler : exn -> M A) : M A :=
  fun w =>
    match body w with
    | (Raise (Exception msg), w') => handler (Exception msg) w'
    | other => other
    end.

Declare Scope py_scope.
Delimit Scope py_scope with py.
Notation "x <- m ;; k" := (bind m (fun x => k))
  (at level 61, m at next level, right associativity) : py_scope.
Notation "m ;;; k" := (bind m (fun _ => k))
  (at level 61, right associativity) : py_scope.
Open Scope py_scope.

(** ** The standard library's UUIDs *)

(** What [UUID.__init__] does to the integer when given [version=4]: the
    variant bits are forced to RFC 4122 and the version nibble to 4. *)
Definition set_version4 (i : Z) : Z :=
  let i := Z.land i (Z.lnot (Z.shiftl 0xc000 48)) in
  let i := Z.lor i (Z.shiftl 0x8000 48) in
  let i := Z.land i (Z.lnot (Z.shiftl 0xf000 64)) in
  Z.lor i (Z.shiftl 4 76).

(** [str(uuid)]: thirty-two lowercase hex digits, grouped 8-4-4-4-12. *)
Definition hex_digit (d : Z) : ascii :=
  nth (Z.to_nat d)
      ["0"; "1"; "2"; "3"; "4"; "5"; "6"; "7";
       "8"; "9"; "a"; "b"; "c"; "d"; "e"; "f"]%char "0"%char.

Fixpoint hex_fixed (width : nat) (z : Z) (acc : list ascii) : list ascii :=
  match width with
  | O => acc
  | S width' => hex_fixed width' (z / 16) (hex_digit (z mod 16) :: acc)
  end.

Definition hex32 (i : Z) : list ascii := hex_fixed 32 i [].

Definition dash : ascii := "-"%char.

Definition group_8_4_4_4_12 (h : list ascii) : list ascii :=
  firstn 8 h ++ dash ::
  firstn 4 (skipn 8 h) ++ dash ::
  firstn 4 (skipn 12 h) ++ dash ::
  firstn 4 (skipn 16 h) ++ dash ::
  skipn 20 h.

Definition uuid_chars (i : Z) : list ascii := group_8_4_4_4_12 (hex32 i).

Definition str_uuid (i : Z) : string := string_of_list_ascii (uuid_chars i).

Section Client.

Variable E : Env.

(** ** Library calls *)

(** [datetime.datetime.utcnow().isoformat()] *)
Definition utcnow_isoformat : M string :=
  fun w => (Ok (clock E (ticks w)),
            mkWorld (draws w) (S (ticks w)) (wire w) (events w)).

Definition send (r : Request) : M Z :=
  fun w =>
    let w' := mkWorld (draws w) (ticks w) (wire w ++ [r]) (events w) in
    match net E (List.length (wire w)) with
    | Responded status => (Ok status, w')
    | Failed e => (Raise e, w')
    end.

Definition api_headers : list (string * option string) :=
  [("x-api-key", LANGSMITH_API_KEY E)].

Definition requests_post (u : string) (j : json) : M Z :=
  send (mkRequest POST u j api_headers).

Definition requests_patch (u : string) (j : json) : M Z :=
  send (mkRequest PATCH u j api_headers).

(** [uuid.uuid4()] is [UUID(bytes=os.urandom(16), version=4)]: sixteen
    random bytes read as a big-endian integer, then [set_version4]. *)
Definition urandom16 (k : nat) : Z := entropy E k mod 2 ^ 128.

Definition uuid4 : M Z :=
  fun w => (Ok (set_version4 (urandom16 (draws w))),
            mkWorld (S (draws w)) (ticks w) (wire w) (events w)).

(** ** The walkthrough cells: one run logged by hand *)

(** Cell 2: [run_id = str(uuid.uuid4())], then the POST.  The value is the
    global [run_id] the later cells read. *)
Definition first_run_create : M string :=
  u <- uuid4 ;;
  let run_id := str_uuid u in
  now <- utcnow_isoformat ;;
  requests_post runs_url
    (JObj [("id", JStr run_id);
           ("name", JStr "MyFirstRun");
           ("run_type", JStr "chain");
           ("start_time", JStr now);
           ("inputs", JObj [("text", JStr "Foo")]);
           ("tags", JList [JStr "langsmith"; JStr "rest"; JStr "my-example"])]) ;;;
  ret run_id.

(** [events = []] and [events.append(ev)] on the global list. *)
Definition events_reset : M unit :=
  fun w => (Ok tt, mkWorld (draws w) (ticks w) (wire w) []).

Definition events_append (ev : json) : M unit :=
  fun w => (Ok tt, mkWorld (draws w) (ticks w) (wire w) (events w ++ [ev])).

(** Cell 3. *)
Definition first_run_events : M unit :=
  events_reset ;;;
  events_append (JObj [("event_name", JStr "retry");
                       ("reason", JStr "never gonna give you up")]) ;;;
  events_append (JObj [("event_name", JStr "new_token");
                       ("value", JStr "foo")]).

(** Cell 4: the PATCH that closes the run, reading the globals [run_id] and
    [events]. *)
Definition first_run_update (run_id : string) : M Z :=
  now <- utcnow_isoformat ;;
  fun w =>
    requests_patch (run_url run_id)
      (JObj [("outputs", JObj [("my_output", JStr "Bar")]);
             ("end_time", JStr now);
             ("events", JList (events w))]) w.

(** ** class RunLogger *)

Definition post_run (data : json) (name run_id : string)
    (parent_run_id : option string) : M unit :=
  now <- utcnow_isoformat ;;
  requests_post runs_url
    (JObj [("id", JStr run_id);
           ("name", JStr name);
           ("run_type", JStr "chain");
           ("parent_run_id", opt_str parent_run_id);
           ("inputs", data);
           ("start_time", JStr now);
           ("session_name", JStr project_name)]) ;;;
  ret tt.

Definition patch_run (run_id : string) (output : option json)
    (error : option string) : M unit :=
  now <- utcnow_isoformat ;;
  requests_patch (run_url run_id)
    (JObj [("error", opt_str error);
           ("outputs", opt_json output);
           ("end_time", JStr now)]) ;;;
  ret tt.

(** ** The traced example *)

(** One activation of [fibonacci]; [self] stands for the recursive calls. *)
Definition fibonacci_frame (self : Z -> Z -> option string -> M Z)
    (n depth : Z) (parent_run_id : option string) : M Z :=
  u <- uuid4 ;;
  let run_id := str_uuid u in
  post_run (JObj [("n", JInt n)]) "fibonacci_recursive" run_id parent_run_id ;;;
  try_except
    (result <- (if n <=? 1 then ret n
                else a <- self (n - 1) (depth + 1) (Some run_id) ;;
                     b <- self (n - 2) (depth + 1) (Some run_id) ;;
                     ret (a + b)) ;;
     patch_run run_id (Some (JObj [("result", JInt result)])) None ;;;
     ret result)
    (fun e => patch_run run_id None (Some (str e)) ;;; raise e).

(** [fuel] bounds the depth of the call stack. *)
Fixpoint fibonacci_fuel (fuel : nat) : Z -> Z -> option string -> M Z :=
  match fuel with
  | O => fun _ _ _ w => (OutOfFuel, w)
  | S fuel' => fibonacci_frame (fibonacci_fuel fuel')
  end.

(** [fibonacci(n)] nests at most [max(n, 1)] activations.  This definition
    gives the call that much stack: it describes the runs that stay within
    the interpreter's recursion limit.  [fibonacci_fuel] is the general
    form, with the number of activations the stack has room for made
    explicit. *)
Definition fibonacci (n depth : Z) (parent_run_id : option string) : M Z :=
  fibonacci_fuel (S (Z.to_nat n)) n depth parent_run_id.

(** ** Client programs: any sequence of calls into the code above *)

Inductive call :=
| PostRun (data : json) (name run_id : string) (parent_run_id : option string)
| AppendEvent (ev : json)
| PatchRun (run_id : string) (output : option json) (error : option string).

Definition exec_call (c : call) : M unit :=
  match c with
  | PostRun data name run_id parent => post_run data name run_id parent
  | AppendEvent ev => events_append ev
  | PatchRun run_id output error => patch_run run_id output error
  end.

(** Statements run in order; the first exception ends the program. *)
Fixpoint exec_calls (cs : list call) : M unit :=
  match cs with
  | [] => ret tt
  | c :: rest => exec_call c ;;; exec_calls rest
  end.

End Client.

(** ** Reading the wire *)

Definition is_post (r : Request) : bool :=
  match verb r with POST => true | PATCH => false end.

Definition is_patch (r : Request) : bool :=
  match verb r with PATCH => true | POST => false end.

(** An update request addresses its run through the URL. *)
Definition is_update_for (run_id : string) (r : Request) : bool :=
  is_patch r && String.eqb (url r) (run_url run_id).

(** A create request names its run in the [id] field of the body. *)
Definition is_create_for (run_id : string) (r : Request) : bool :=
  is_post r &&
  match jget "id" (body r) with
  | Some (JStr s) => String.eqb s run_id
  | _ => false
  end.

Definition updates_of (run_id : string) (log : list Request) : nat :=
  List.length (filter (is_update_for run_id) log).

Definition creates_of (run_id : string) (log : list Request) : nat :=
  List.length (filter (is_create_for run_id) log).

(** The calls of a program that go to the transport. *)
Fixpoint transport_calls (cs : list call) : nat :=
  match cs with
  | [] => O
  | AppendEvent _ :: rest => transport_calls rest
  | _ :: rest => S (transport_calls rest)
  end.

(** The [patch_run] calls a program makes for one run. *)
Fixpoint patch_calls (run_id : string) (cs : list call) : nat :=
  match cs with
  | [] => O
  | PatchRun r _ _ :: rest =>
      if String.eqb r run_id then S (patch_calls run_id rest)
      else patch_calls run_id rest
  | _ :: rest => patch_calls run_id rest
  end.

(** * Vocabulary of the properties *)

(** ** Requests and worlds *)

(** The request [post_run] builds when the clock reads [now]. *)
Definition create_request (E : Env) (data : json) (name run_id : string)
    (parent_run_id : option string) (now : string) : Request :=
  mkRequest POST runs_url
    (JObj [("id", JStr run_id);
           ("name", JStr name);
           ("run_type", JStr "chain");
           ("parent_run_id", opt_str parent_run_id);
           ("inputs", data);
           ("start_time", JStr now);
           ("session_name", JStr project_name)])
    (api_headers E).

(** The request [patch_run] builds when the clock reads [now]. *)
Definition update_request (E : Env) (run_id : string) (output : option json)
    (error : option string) (now : string) : Request :=
  mkRequest PATCH (run_url run_id)
    (JObj [("error", opt_str error);
           ("outputs", opt_json output);
           ("end_time", JStr now)])
    (api_headers E).

(** How a call into [requests] ends for a caller that drops the response. *)
Definition fate (E : Env) (w : World) : result unit :=
  match net E (List.length (wire w)) with
  | Responded _ => Ok tt
  | Failed e => Raise e
  end.

(** The world after one clock reading and one request. *)
Definition sent (w : World) (r : Request) : World :=
  mkWorld (draws w) (S (ticks w)) (wire w ++ [r]) (events w).

(** The world only moves forward: requests are added at the end of the wire,
    and the counts of draws and clock readings never decrease. *)
Definition extends (w w' : World) : Prop :=
  (exists sfx, wire w' = (wire w ++ sfx)%list) /\
  (draws w <= draws w')%nat /\ (ticks w <= ticks w')%nat.

Definition grows {A} (m : M A) : Prop := forall w, extends w (snd (m w)).

(** A computation that never runs out of fuel. *)
Definition terminates {A} (m : M A) : Prop :=
  forall w, fst (m w) <> OutOfFuel.

(** A transport that answers every request (with whatever status). *)
Definition responsive (E : Env) : Prop :=
  forall k, exists status, net E k = Responded status.

(** ** Inside a [fibonacci] call *)

(** The run id a call draws in world [w]. *)
Definition next_run_id (E : Env) (w : World) : string :=
  str_uuid (set_version4 (urandom16 E (draws w))).

(** The create request a [fibonacci] call emits first. *)
Definition fibonacci_create (E : Env) (n : Z) (parent : option string)
    (w : World) : Request :=
  create_request E (JObj [("n", JInt n)]) "fibonacci_recursive"
    (next_run_id E w) parent (clock E (ticks w)).

(** What follows the create request inside one activation. *)
Definition fibonacci_rest (E : Env) (self : Z -> Z -> option string -> M Z)
    (n depth : Z) (run_id : string) : M Z :=
  try_except
    (result <- (if n <=? 1 then ret n
                else a <- self (n - 1) (depth + 1) (Some run_id) ;;
                     b <- self (n - 2) (depth + 1) (Some run_id) ;;
                     ret (a + b)) ;;
     patch_run E run_id (Some (JObj [("result", JInt result)])) None ;;;
     ret result)
    (fun e => patch_run E run_id None (Some (str e)) ;;; raise e).

(** ** Run ids in a session *)




(** The run id made from the [j]-th draw. *)
Definition run_id_at (E : Env) (j : nat) : string :=
  str_uuid (set_version4 (urandom16 E j)).

(** The request creates or updates the run of the [j]-th draw. *)
Definition concerns (E : Env) (j : nat) (r : Request) : bool :=
  is_create_for (run_id_at E j) r || is_update_for (run_id_at E j) r.

(** A tracing session: every request sent so far creates or updates a run
    whose id was drawn so far. *)
Definition session (E : Env) (w : World) : Prop :=
  Forall (fun r => exists j, (j < draws w)%nat /\ concerns E j r = true)
         (wire w).

(** From [w] to [w'] the session went on: draws were added, and so were
    requests about runs drawn by then. *)
Definition session_step (E : Env) (w w' : World) : Prop :=
  (draws w <= draws w')%nat /\
  exists sfx,
    wire w' = (wire w ++ sfx)%list /\
    Forall (fun r => exists j, (j < draws w')%nat /\ concerns E j r = true) sfx.

(** ** The Fibonacci numbers *)

(** 0, 1, and each next one the sum of the two before it. *)
Fixpoint nth_fibonacci (k : nat) : Z :=
  match k with
  | O => 0
  | S k' =>
      match k' with
      | O => 1
      | S k'' => nth_fibonacci k' + nth_fibonacci k''
      end
  end.

(** What the source's arithmetic yields: [n] itself up to 1, the sum of the
    two previous values beyond. *)
Definition fibonacci_value (n : Z) : Z :=
  if n <=? 1 then n else nth_fibonacci (Z.to_nat n).

(** ** Reading a UUID back from its text *)




(** ** Concrete environments *)

(** A reachable service: every request is answered with status 200. *)
Definition E_up : Env :=
  mkEnv (fun k => Z.of_nat k * 0x9e3779b97f4a7c15f39cc0605cedc835)
        (fun _ => "2024-01-01T00:00:00")
        (fun _ => Responded 200)
        (Some "ls-key").

(** An unreachable service: every request raises. *)
Definition E_down : Env :=
  mkEnv (fun k => Z.of_nat k * 0x9e3779b97f4a7c15f39cc0605cedc835)
        (fun _ => "2024-01-01T00:00:00")
        (fun _ => Failed "ConnectionError")
        (Some "ls-key").

(** A service that answers every request with status 500. *)
Definition E_500 : Env :=
  mkEnv (fun k => Z.of_nat k)
        (fun _ => "2024-01-01T00:00:00")
        (fun _ => Responded 500)
        None.

(** A service whose second request fails and whose others are answered. *)
Definition E_flaky : Env :=
  mkEnv (fun k => Z.of_nat k)
        (fun _ => "2024-01-01T00:00:00")
        (fun k => if Nat.eqb k 1 then Failed "ReadTimeout" else Responded 200)
        (Some "ls-key").

(** A source of randomness that returns the same sixteen bytes every time. *)
Definition E_stuck : Env :=
  mkEnv (fun _ => 7)
        (fun _ => "2024-01-01T00:00:00")
        (fun _ => Responded 200)
        (Some "ls-key").

(** ** The runs one [fibonacci] call logs *)

(** Activations of [fibonacci] under a call with argument [k >= 0]: the call
    itself and, beyond 1, those of its two recursive calls. *)
Fixpoint calls_nat (k : nat) : nat :=
  match k with
  | O => 1
  | S k' =>
      match k' with
      | O => 1
      | S k'' => S (calls_nat k' + calls_nat k'')
      end
  end.

Definition calls (n : Z) : nat :=
  if n <=? 1 then 1%nat else calls_nat (Z.to_nat n).

(** Every run has as many create requests as update requests. *)
Definition balanced (log : list Request) : Prop :=
  forall run_id, creates_of run_id log = updates_of run_id log.

(** The update request that reports [result] for the run drawn in [w]. *)
Definition fibonacci_result_update (E : Env) (w : World) (result : Z)
    (now : string) : Request :=
  update_request E (next_run_id E w)
    (Some (JObj [("result", JInt result)])) None now.

(** The update request that reports the exception [e] for the run drawn in
    [w]. *)
Definition fibonacci_error_update (E : Env) (w : World) (e : exn)
    (now : string) : Request :=
  update_request E (next_run_id E w) None (Some (str e)) now.

(** The world right after the create request of a call made in [w]. *)
Definition after_create (E : Env) (n : Z) (parent : option string)
    (w : World) : World :=
  mkWorld (S (draws w)) (S (ticks w))
    (wire w ++ [fibonacci_create E n parent w]) (events w).

(** ** Invariants of a trace *)

(** A computation keeps the step relation [T] from every world where the
    guard [G] holds. *)
Definition keeps {A} (T : World -> World -> Prop) (G : World -> Prop)
    (m : M A) : Prop :=
  forall w, G w -> T w (snd (m w)).

(** Bookkeeping: one clock reading per request, one draw per create request,
    the events list untouched, nothing already sent altered. *)
Definition accounted (w w' : World) : Prop :=
  exists sfx,
    wire w' = (wire w ++ sfx)%list /\
    ticks w' = (ticks w + List.length sfx)%nat /\
    draws w' = (draws w + List.length (filter is_post sfx))%nat /\
    events w' = events w.

(** The two shapes of request [fibonacci] hands to the logger: a create
    request for a chain run named [fibonacci_recursive] in the default
    session, or an update carrying either a result and no error, or an error
    and no outputs.  Both carry the header [x-api-key] with the value
    [key]; an entry without a value, which [requests] would drop, does not
    count. *)
Definition fibonacci_request (key : string) (r : Request) : bool :=
  match verb r with
  | POST =>
      String.eqb (url r) runs_url &&
      match jget "name" (body r), jget "run_type" (body r),
            jget "session_name" (body r), jget "inputs" (body r) with
      | Some (JStr name), Some (JStr "chain"), Some (JStr session),
        Some (JObj [("n", JInt _)]) =>
          String.eqb name "fibonacci_recursive" && String.eqb session "default"
      | _, _, _, _ => false
      end
  | PATCH =>
      match jget "error" (body r), jget "outputs" (body r) with
      | Some JNull, Some (JObj [("result", JInt _)]) => true
      | Some (JStr _), Some JNull => true
      | _, _ => false
      end
  end &&
  match headers r with
  | [("x-api-key", Some sent_key)] => String.eqb sent_key key
  | _ => false
  end.

Definition shaped (key : string) (w w' : World) : Prop :=
  exists sfx,
    wire w' = (wire w ++ sfx)%list /\
    forallb (fibonacci_request key) sfx = true.

(** The id a create request gives its run. *)
Definition request_id (r : Request) : option string :=
  match jget "id" (body r) with
  | Some (JStr s) => Some s
  | _ => None
  end.

Definition known_id (known : list string) (run_id : string) : bool :=
  existsb (String.eqb run_id) known.

(** A create request names a known run as its parent; a request without
    parent does not pass. *)
Definition parent_known (known : list string) (r : Request) : bool :=
  match jget "parent_run_id" (body r) with
  | Some (JStr p) => known_id known p
  | _ => false
  end.

(** A log read from the oldest request on: every create request names as
    parent a run created before it, every update request addresses a run
    created before it.  [known] are the runs created so far, newest
    first. *)
Fixpoint linked (known : list string) (log : list Request) : bool :=
  match log with
  | [] => true
  | r :: rest =>
      match verb r with
      | POST =>
          match request_id r with
          | Some run_id => parent_known known r && linked (run_id :: known) rest
          | None => false
          end
      | PATCH =>
          existsb (fun run_id => String.eqb (url r) (run_url run_id)) known &&
          linked known rest
      end
  end.




(** A user who presses Ctrl-C during one request only, the [k]-th. *)
Definition E_interrupted_at (k : nat) : Env :=
  mkEnv (fun j => Z.of_nat j * 0x9e3779b97f4a7c15f39cc0605cedc835)
        (fun _ => "2024-01-01T00:00:00")
        (fun j => if Nat.eqb j k then Failed (Interrupt "KeyboardInterrupt")
                  else Responded 200)
        (Some "ls-key").

(** A service that fails on one request only, the [k]-th. *)
Definition E_fails_at (k : nat) : Env :=
  mkEnv (fun j => Z.of_nat j * 0x9e3779b97f4a7c15f39cc0605cedc835)
        (fun _ => "2024-01-01T00:00:00")
        (fun j => if Nat.eqb j k then Failed "ConnectionError" else Responded 200)
        (Some "ls-key").

(** ** The first walkthrough as a whole *)

(** Cells 2, 3 and 4 run in order. *)
Definition first_run (E : Env) : M Z :=
  run_id <- first_run_create E ;;
  first_run_events ;;;
  first_run_update E run_id.

(** The two events cell 3 appends. *)
Definition first_run_event_list : list json :=
  [JObj [("event_name", JStr "retry");
         ("reason", JStr "never gonna give you up")];
   JObj [("event_name", JStr "new_token"); ("value", JStr "foo")]].

(** The request of cell 2 for run [run_id] when the clock reads [now]. *)
Definition first_run_create_request (E : Env) (run_id now : string) : Request :=
  mkRequest POST runs_url
    (JObj [("id", JStr run_id);
           ("name", JStr "MyFirstRun");
           ("run_type", JStr "chain");
           ("start_time", JStr now);
           ("inputs", JObj [("text", JStr "Foo")]);
           ("tags", JList [JStr "langsmith"; JStr "rest"; JStr "my-example"])])
    (api_headers E).

(** The request of cell 4 for run [run_id] when the clock reads [now] and
    the events list holds [evs]. *)
Definition first_run_update_request (E : Env) (run_id now : string)
    (evs : list json) : Request :=
  mkRequest PATCH (run_url run_id)
    (JObj [("outputs", JObj [("my_output", JStr "Bar")]);
           ("end_time", JStr now);
           ("events", JList evs)])
    (api_headers E).

(** * Properties *)

(** ** What one call of [post_run] and [patch_run] does *)

Lemma post_run_eq E data name run_id parent w :
  post_run E data name run_id parent w =
  (fate E w, sent w (create_request E data name run_id parent (clock E (ticks w)))).
Proof.
  unfold post_run, bind, utcnow_isoformat, requests_post, send, fate, sent,
    create_request, ret; simpl.
  destruct (net E (List.length (wire w))); reflexivity.
Qed.

Lemma patch_run_eq E run_id output error w :
  patch_run E run_id output error w =
  (fate E w, sent w (update_request E run_id output error (clock E (ticks w)))).
Proof.
  unfold patch_run, bind, utcnow_isoformat, requests_patch, send, fate, sent,
    update_request, ret; simpl.
  destruct (net E (List.length (wire w))); reflexivity.
Qed.

Lemma events_append_eq ev w :
  events_append ev w =
  (Ok tt, mkWorld (draws w) (ticks w) (wire w) (events w ++ [ev])).
Proof. reflexivity. Qed.



Lemma is_update_for_update_request E r run_id output error now :
  is_update_for r (update_request E run_id output error now) = String.eqb run_id r.
Proof.
  unfold is_update_for, update_request, is_patch; simpl.
  reflexivity.
Qed.

Lemma is_update_for_create_request E r data name run_id parent now :
  is_update_for r (create_request E data name run_id parent now) = false.
Proof. reflexivity. Qed.

Lemma is_create_for_create_request E data name run_id parent now :
  is_create_for run_id (create_request E data name run_id parent now) = true.
Proof.
  unfold is_create_for, create_request, is_post; simpl.
  apply String.eqb_eq. reflexivity.
Qed.

Lemma updates_of_app r l1 l2 :
  updates_of r (l1 ++ l2) = (updates_of r l1 + updates_of r l2)%nat.
Proof.
  unfold updates_of. rewrite filter_app, length_app. reflexivity.
Qed.

Lemma creates_of_app r l1 l2 :
  creates_of r (l1 ++ l2) = (creates_of r l1 + creates_of r l2)%nat.
Proof.
  unfold creates_of. rewrite filter_app, length_app. reflexivity.
Qed.

(** ** Shape of the payloads *)

(** C10: every create request that [post_run] emits carries
    [run_type = "chain"], whatever the arguments and the state of the world:
    [post_run] has no parameter for the kind of run. *)
Theorem post_run_run_type_chain E data name run_id parent w :
  exists r,
    wire (snd (post_run E data name run_id parent w)) = (wire w ++ [r])%list /\
    verb r = POST /\
    jget "run_type" (body r) = Some (JStr "chain").
Proof.
  rewrite post_run_eq. eexists. split; [reflexivity|]. split; reflexivity.
Qed.

(** C7, as stated, fails: the create payload has a seventh key,
    [session_name], outside the listed set, and an update whose [error] does
    not apply still carries the key [error] (as [null]). *)
Lemma payload_keys_not_as_listed :
  (forall r,
      wire (snd (post_run E_up (JObj []) "root" "R1" None world0)) = [r] ->
      ~ incl (jkeys (body r))
          ["id"; "name"; "run_type"; "parent_run_id"; "inputs"; "start_time"]) /\
  (forall u,
      wire (snd (patch_run E_up "R1" (Some (JObj [("y", JInt 2)])) None world0)) = [u] ->
      In "error" (jkeys (body u)) /\ jget "error" (body u) = Some JNull).
Proof.
  split.
  - intros r H. rewrite post_run_eq in H. simpl in H. injection H as <-.
    intros Hincl.
    assert (Hin : In "session_name"
              ["id"; "name"; "run_type"; "parent_run_id"; "inputs"; "start_time"]).
    { apply Hincl. simpl. do 6 right. left. reflexivity. }
    simpl in Hin.
    destruct Hin as [H|[H|[H|[H|[H|[H|[]]]]]]]; discriminate H.
  - intros u H. rewrite patch_run_eq in H. simpl in H. injection H as <-.
    split; [simpl; left; reflexivity | reflexivity].
Qed.

(** C7 (amended): every create request carries exactly the keys [id], [name],
    [run_type], [parent_run_id], [inputs], [start_time], [session_name]; every
    update request is a PATCH to the run's own URL carrying exactly the keys
    [error], [outputs], [end_time], an absent value being sent as [null]. *)
Theorem payload_keys E data name run_id parent output error w :
  (exists r,
      wire (snd (post_run E data name run_id parent w)) = (wire w ++ [r])%list /\
      verb r = POST /\ url r = runs_url /\
      jkeys (body r) =
        ["id"; "name"; "run_type"; "parent_run_id"; "inputs"; "start_time";
         "session_name"] /\
      jget "parent_run_id" (body r) = Some (opt_str parent)) /\
  (exists u,
      wire (snd (patch_run E run_id output error w)) = (wire w ++ [u])%list /\
      verb u = PATCH /\ url u = run_url run_id /\
      jkeys (body u) = ["error"; "outputs"; "end_time"] /\
      jget "error" (body u) = Some (opt_str error) /\
      jget "outputs" (body u) = Some (opt_json output)).
Proof.
  split.
  - rewrite post_run_eq. eexists. repeat split.
  - rewrite patch_run_eq. eexists. repeat split.
Qed.

(** ** [patch_run] keeps no state and checks no argument *)

(** C2, as stated, fails: given both an output and an error, or neither,
    [patch_run] returns normally and a request goes out. *)
Lemma patch_run_accepts_both_and_neither :
  let both :=
    patch_run E_up "R1" (Some (JObj [("a", JInt 1)])) (Some "boom") world0 in
  let neither := patch_run E_up "R1" None None world0 in
  fst both = Ok tt /\ List.length (wire (snd both)) = 1%nat /\
  fst neither = Ok tt /\ List.length (wire (snd neither)) = 1%nat.
Proof. repeat split. Qed.

(** C2 (amended): [patch_run] performs no check on its arguments.  For every
    combination of [output] and [error] it hands exactly one update request
    to the transport, carrying both values as given ([null] when absent); it
    returns normally when the transport answers and raises only what the
    transport raises. *)
Theorem patch_run_unvalidated E run_id output error w :
  fst (patch_run E run_id output error w) =
    match net E (List.length (wire w)) with
    | Responded _ => Ok tt
    | Failed e => Raise e
    end /\
  exists u,
    wire (snd (patch_run E run_id output error w)) = (wire w ++ [u])%list /\
    is_update_for run_id u = true /\
    jget "error" (body u) = Some (opt_str error) /\
    jget "outputs" (body u) = Some (opt_json output).
Proof.
  rewrite patch_run_eq. split; [reflexivity|].
  eexists. split; [reflexivity|].
  rewrite is_update_for_update_request, String.eqb_refl. repeat split.
Qed.

(** C6, as stated, fails: ending the same run twice with the same outputs
    puts two update requests for it on the wire, and the second call changes
    the world. *)
Lemma patch_run_twice_sends_twice :
  let out := Some (JObj [("a", JInt 1)]) in
  let w1 := snd (patch_run E_up "R1" out None world0) in
  let w2 := snd (patch_run E_up "R1" out None w1) in
  updates_of "R1" (wire w1) = 1%nat /\
  updates_of "R1" (wire w2) = 2%nat /\
  w2 <> w1.
Proof. repeat split. discriminate. Qed.

(** C6 (amended): [patch_run] is not idempotent on the wire.  Calling it twice
    for the same run with the same outputs hands two update requests for that
    run to the transport, equal except for their [end_time]; the second call
    neither raises nor is suppressed on account of the first. *)
Theorem patch_run_twice E run_id out w :
  let w1 := snd (patch_run E run_id (Some out) None w) in
  let w2 := snd (patch_run E run_id (Some out) None w1) in
  wire w2 =
    (wire w ++
      [update_request E run_id (Some out) None (clock E (ticks w));
       update_request E run_id (Some out) None (clock E (S (ticks w)))])%list /\
  updates_of run_id (wire w2) = (2 + updates_of run_id (wire w))%nat /\
  fst (patch_run E run_id (Some out) None w1) = fate E w1.
Proof.
  cbv zeta. rewrite !patch_run_eq. simpl.
  split; [rewrite <- app_assoc; reflexivity|].
  split; [|reflexivity].
  rewrite !updates_of_app. unfold updates_of at 2 3. simpl.
  rewrite !is_update_for_update_request, String.eqb_refl. simpl. lia.
Qed.

(** ** Sequences of calls *)

Lemma exec_calls_cons E c cs w :
  exec_calls E (c :: cs) w =
  match exec_call E c w with
  | (Ok _, w1) => exec_calls E cs w1
  | (Raise e, w1) => (Raise e, w1)
  | (OutOfFuel, w1) => (OutOfFuel, w1)
  end.
Proof. reflexivity. Qed.

Lemma exec_calls_app E cs1 cs2 w w1 :
  exec_calls E cs1 w = (Ok tt, w1) ->
  exec_calls E (cs1 ++ cs2) w = exec_calls E cs2 w1.
Proof.
  revert w. induction cs1 as [|c cs1 IH]; intros w H.
  - simpl in H. injection H as <-. reflexivity.
  - rewrite <- app_comm_cons, exec_calls_cons.
    rewrite exec_calls_cons in H.
    destruct (exec_call E c w) as [[[]|e|] w0]; try discriminate H.
    apply IH. exact H.
Qed.

(** The requests one call hands to the transport. *)
Lemma exec_call_wire E c w :
  exists sfx, wire (snd (exec_call E c w)) = (wire w ++ sfx)%list /\
              (List.length sfx <= 1)%nat.
Proof.
  destruct c as [data name run_id parent | ev | run_id output error]; simpl.
  - rewrite post_run_eq. eexists. split; [reflexivity | simpl; lia].
  - exists []. rewrite app_nil_r. split; [reflexivity | simpl; lia].
  - rewrite patch_run_eq. eexists. split; [reflexivity | simpl; lia].
Qed.

(** The wire only grows. *)
Lemma exec_calls_wire E cs w :
  exists sfx, wire (snd (exec_calls E cs w)) = (wire w ++ sfx)%list.
Proof.
  revert w. induction cs as [|c cs IH]; intros w.
  - exists []. simpl. rewrite app_nil_r. reflexivity.
  - rewrite exec_calls_cons.
    destruct (exec_call_wire E c w) as [s1 [H1 _]].
    destruct (exec_call E c w) as [[[]|e|] w1]; simpl in H1.
    + destruct (IH w1) as [s2 H2]. exists (s1 ++ s2)%list.
      rewrite H2, H1, app_assoc. reflexivity.
    + exists s1. exact H1.
    + exists s1. exact H1.
Qed.

Lemma exec_call_updates E c w w1 run_id :
  exec_call E c w = (Ok tt, w1) ->
  updates_of run_id (wire w1) =
  (updates_of run_id (wire w) + patch_calls run_id [c])%nat.
Proof.
  destruct c as [data name r parent | ev | r output error]; simpl.
  - rewrite post_run_eq. intros H. injection H as _ <-. simpl.
    rewrite updates_of_app. reflexivity.
  - rewrite events_append_eq. intros H. injection H as <-. simpl. lia.
  - rewrite patch_run_eq. intros H. injection H as _ <-. simpl.
    rewrite updates_of_app. unfold updates_of at 2. simpl.
    rewrite is_update_for_update_request.
    destruct (String.eqb r run_id); reflexivity.
Qed.

Lemma exec_call_length E c w w1 :
  exec_call E c w = (Ok tt, w1) ->
  List.length (wire w1) = (List.length (wire w) + transport_calls [c])%nat.
Proof.
  destruct c as [data name r parent | ev | r output error]; simpl.
  - rewrite post_run_eq. intros H. injection H as _ <-. simpl.
    rewrite length_app. reflexivity.
  - rewrite events_append_eq. intros H. injection H as <-. simpl. lia.
  - rewrite patch_run_eq. intros H. injection H as _ <-. simpl.
    rewrite length_app. reflexivity.
Qed.

(** C1, as stated, fails: after a run has been ended, a second end for it
    still reaches the transport (here with an error, after an end with
    outputs), and an event appended afterwards still lands in the buffer. *)
Lemma ended_run_still_accepts_calls :
  let out := Some (JObj [("x", JInt 1)]) in
  let w1 := snd (exec_calls E_up
                   [PostRun (JObj []) "root" "R1" None; PatchRun "R1" out None]
                   world0) in
  let w2 := snd (exec_call E_up (PatchRun "R1" None (Some "late")) w1) in
  let w3 := snd (exec_call E_up (AppendEvent (JObj [("event_name", JStr "retry")])) w1) in
  updates_of "R1" (wire w1) = 1%nat /\
  updates_of "R1" (wire w2) = 2%nat /\
  wire w2 <> wire w1 /\
  events w3 <> events w1.
Proof. repeat split; discriminate. Qed.

(** C1 (amended): the code keeps no run state, so there is no terminal
    transition.  Every [patch_run] call that returns has handed one update
    request for its run to the transport, whatever came before: after any
    sequence of calls that runs to completion, the update requests on the
    wire for a run are those that were there before plus one for each
    [patch_run] call made for it, and the wire has grown by one request for
    each [post_run] and [patch_run] call.  Appending an event sends
    nothing. *)
Theorem updates_count_patch_calls E cs w w' run_id :
  exec_calls E cs w = (Ok tt, w') ->
  updates_of run_id (wire w') =
    (updates_of run_id (wire w) + patch_calls run_id cs)%nat /\
  List.length (wire w') = (List.length (wire w) + transport_calls cs)%nat.
Proof.
  revert w. induction cs as [|c cs IH]; intros w H.
  - simpl in H. injection H as <-. simpl. split; lia.
  - rewrite exec_calls_cons in H.
    destruct (exec_call E c w) as [[[]|e|] w1] eqn:Hc; try discriminate H.
    destruct (IH _ H) as [IHu IHl].
    rewrite IHu, IHl, (exec_call_updates _ _ _ _ run_id Hc),
      (exec_call_length _ _ _ _ Hc).
    destruct c as [? ? ? ? | ? | r ? ?]; simpl; try (split; lia).
    destruct (String.eqb r run_id); split; lia.
Qed.

Lemma updates_count_patch_calls_witness :
  updates_of "R1"
    (wire (snd (exec_calls E_up
                  [PostRun (JObj []) "root" "R1" None;
                   AppendEvent (JObj [("event_name", JStr "retry")]);
                   PatchRun "R1" (Some (JObj [("x", JInt 1)])) None;
                   PatchRun "R2" None (Some "boom");
                   PatchRun "R1" (Some (JObj [("x", JInt 1)])) None]
                  world0))) = 2%nat.
Proof.
  refine (proj1 (updates_count_patch_calls E_up
           [PostRun (JObj []) "root" "R1" None;
            AppendEvent (JObj [("event_name", JStr "retry")]);
            PatchRun "R1" (Some (JObj [("x", JInt 1)])) None;
            PatchRun "R2" None (Some "boom");
            PatchRun "R1" (Some (JObj [("x", JInt 1)])) None]
           world0 _ "R1" _)).
  reflexivity.
Defined.

(** ** Events *)

Lemma exec_calls_append_events E evs w :
  exec_calls E (map AppendEvent evs) w =
  (Ok tt, mkWorld (draws w) (ticks w) (wire w) (events w ++ evs)).
Proof.
  revert w. induction evs as [|ev evs IH]; intros w.
  - simpl. unfold ret. rewrite app_nil_r. destruct w; reflexivity.
  - simpl map. rewrite exec_calls_cons. simpl exec_call.
    rewrite events_append_eq, IH. simpl. rewrite <- app_assoc. reflexivity.
Qed.

(** C5, as stated, fails: one event appended, then the run ended through
    [patch_run]; the event is in the buffer, and the update request that goes
    out has no [events] field. *)
Lemma patch_run_drops_events :
  let ev := JObj [("event_name", JStr "retry"); ("reason", JStr "x")] in
  let w' := snd (exec_calls E_up
                   [AppendEvent ev; PatchRun "R1" (Some (JObj [])) None]
                   world0) in
  events w' = [ev] /\
  exists u, wire w' = [u] /\ jget "events" (body u) = None.
Proof.
  split; [reflexivity|]. eexists. split; reflexivity.
Qed.

(** C5 (amended): appended events are kept in memory in the order added and
    appending sends nothing; the walkthrough's hand-written PATCH puts
    exactly that list, in that order, in its one payload next to [outputs]
    and [end_time]; [RunLogger.patch_run] takes no events and its payload
    never has an [events] field. *)
Theorem events_buffered_and_flushed_by_hand E evs run_id output error w :
  let w1 := snd (exec_calls E (map AppendEvent evs) w) in
  events w1 = (events w ++ evs)%list /\
  wire w1 = wire w /\
  (exists u,
      wire (snd (first_run_update E run_id w1)) = (wire w ++ [u])%list /\
      is_update_for run_id u = true /\
      jkeys (body u) = ["outputs"; "end_time"; "events"] /\
      jget "events" (body u) = Some (JList (events w ++ evs))) /\
  (exists u,
      wire (snd (patch_run E run_id output error w1)) = (wire w ++ [u])%list /\
      is_update_for run_id u = true /\
      jget "events" (body u) = None).
Proof.
  cbv zeta. rewrite exec_calls_append_events. simpl.
  split; [reflexivity|]. split; [reflexivity|]. split.
  - unfold first_run_update, bind, utcnow_isoformat, requests_patch, send.
    simpl.
    destruct (net E (List.length (wire w))); simpl;
      (eexists; split; [reflexivity|]);
      (split; [unfold is_update_for; simpl; apply String.eqb_refl|]);
      split; reflexivity.
  - rewrite patch_run_eq. simpl. eexists. split; [reflexivity|].
    rewrite is_update_for_update_request, String.eqb_refl.
    split; reflexivity.
Qed.

(** ** Parent linkage *)

(** C4: a [post_run] call given parent [P] emits a create request whose
    [parent_run_id] is exactly [P], and one given no parent emits
    [parent_run_id = null]; this holds at any point of any sequence of calls,
    whatever calls (of siblings or anyone else) ran before it and run after
    it. *)
Theorem post_run_parent_any_interleaving
    E before after data name run_id parent w w1 :
  exec_calls E before w = (Ok tt, w1) ->
  exists r rest,
    wire (snd (exec_calls E
                 (before ++ PostRun data name run_id parent :: after) w)) =
      (wire w1 ++ r :: rest)%list /\
    is_create_for run_id r = true /\
    jget "parent_run_id" (body r) =
      Some (match parent with Some P => JStr P | None => JNull end).
Proof.
  intros Hb. rewrite (exec_calls_app _ _ _ _ _ Hb), exec_calls_cons.
  simpl exec_call. rewrite post_run_eq.
  set (r := create_request E data name run_id parent (clock E (ticks w1))).
  assert (Hr : is_create_for run_id r = true /\
               jget "parent_run_id" (body r) =
                 Some (match parent with Some P => JStr P | None => JNull end)).
  { split; [apply is_create_for_create_request | reflexivity]. }
  destruct (fate E w1) as [[]|e|].
  - destruct (exec_calls_wire E after (sent w1 r)) as [sfx Hs].
    exists r, sfx. split; [|exact Hr].
    rewrite Hs. simpl. rewrite <- app_assoc. reflexivity.
  - exists r, []. split; [reflexivity | exact Hr].
  - exists r, []. split; [reflexivity | exact Hr].
Qed.

Lemma post_run_parent_any_interleaving_witness :
  exists r rest,
    wire (snd (exec_calls E_up
                 ([PostRun (JObj []) "root" "R1" None;
                   PostRun (JObj []) "sibling" "R3" (Some "R1")] ++
                  PostRun (JObj []) "child" "R2" (Some "R1") ::
                  [PatchRun "R3" (Some (JObj [])) None;
                   PatchRun "R2" (Some (JObj [("x", JInt 1)])) None])
                 world0)) =
      (wire (snd (exec_calls E_up
                    [PostRun (JObj []) "root" "R1" None;
                     PostRun (JObj []) "sibling" "R3" (Some "R1")]
                    world0)) ++ r :: rest)%list /\
    is_create_for "R2" r = true /\
    jget "parent_run_id" (body r) = Some (JStr "R1").
Proof.
  apply (post_run_parent_any_interleaving E_up
           [PostRun (JObj []) "root" "R1" None;
            PostRun (JObj []) "sibling" "R3" (Some "R1")]
           [PatchRun "R3" (Some (JObj [])) None;
            PatchRun "R2" (Some (JObj [("x", JInt 1)])) None]
           (JObj []) "child" "R2" (Some "R1") world0).
  reflexivity.
Defined.

(** ** Termination of [fibonacci] *)

Lemma terminates_ret {A} (a : A) : terminates (ret a).
Proof. intros w. discriminate. Qed.

Lemma terminates_raise {A} (e : exn) : terminates (@raise A e).
Proof. intros w. discriminate. Qed.

Lemma terminates_bind {A B} (m : M A) (k : A -> M B) :
  terminates m -> (forall a, terminates (k a)) -> terminates (bind m k).
Proof.
  intros Hm Hk w. unfold bind. specialize (Hm w).
  destruct (m w) as [[a|e|] w1]; simpl in *.
  - apply Hk.
  - discriminate.
  - exfalso. apply Hm. reflexivity.
Qed.

Lemma terminates_try_except {A} (body : M A) (handler : exn -> M A) :
  terminates body -> (forall e, terminates (handler e)) ->
  terminates (try_except body handler).
Proof.
  intros Hb Hh w. unfold try_except. specialize (Hb w).
  destruct (body w) as [[a|[msg|msg]|] w1]; simpl in *.
  - discriminate.
  - apply Hh.
  - discriminate.
  - exact Hb.
Qed.

Lemma terminates_uuid4 E : terminates (uuid4 E).
Proof. intros w. discriminate. Qed.

Lemma terminates_post_run E data name run_id parent :
  terminates (post_run E data name run_id parent).
Proof.
  intros w. rewrite post_run_eq. unfold fate. simpl.
  destruct (net E (List.length (wire w))); discriminate.
Qed.

Lemma terminates_patch_run E run_id output error :
  terminates (patch_run E run_id output error).
Proof.
  intros w. rewrite patch_run_eq. unfold fate. simpl.
  destruct (net E (List.length (wire w))); discriminate.
Qed.

Create HintDb term.

#[local] Hint Resolve terminates_ret terminates_raise terminates_uuid4
  terminates_post_run terminates_patch_run : term.

(** A call stack deeper than [n] is enough for [fibonacci(n)], under any
    behaviour of the transport. *)
Lemma fibonacci_fuel_terminates E fuel :
  forall n depth parent,
    (Z.to_nat n < fuel)%nat ->
    terminates (fibonacci_fuel E fuel n depth parent).
Proof.
  induction fuel as [|fuel IH]; intros n depth parent Hfuel; [lia|].
  simpl. unfold fibonacci_frame.
  apply terminates_bind; [auto with term|]. intros u.
  apply terminates_bind; [auto with term|]. intros _.
  apply terminates_try_except.
  - apply terminates_bind.
    + destruct (Z.leb_spec n 1) as [Hle|Hgt]; [auto with term|].
      apply terminates_bind; [apply IH; lia|]. intros a.
      apply terminates_bind; [apply IH; lia|]. intros b.
      auto with term.
    + intros r. apply terminates_bind; auto with term.
  - intros e. apply terminates_bind; auto with term.
Qed.

Lemma fibonacci_terminates E n depth parent :
  terminates (fibonacci E n depth parent).
Proof. apply fibonacci_fuel_terminates. lia. Qed.

(** ** The value [fibonacci] computes *)

Lemma fibonacci_value_nonneg n :
  0 <= n -> fibonacci_value n = nth_fibonacci (Z.to_nat n).
Proof.
  intros Hn. unfold fibonacci_value.
  destruct (Z.leb_spec n 1) as [Hle|Hgt]; [|reflexivity].
  assert (Hcases : n = 0 \/ n = 1) by lia.
  destruct Hcases as [-> | ->]; reflexivity.
Qed.

Lemma fibonacci_value_step n :
  1 < n ->
  fibonacci_value n = fibonacci_value (n - 1) + fibonacci_value (n - 2).
Proof.
  intros Hn.
  rewrite (fibonacci_value_nonneg n), (fibonacci_value_nonneg (n - 1)),
    (fibonacci_value_nonneg (n - 2)) by lia.
  replace (Z.to_nat n) with (S (S (Z.to_nat (n - 2)))) by lia.
  replace (Z.to_nat (n - 1)) with (S (Z.to_nat (n - 2))) by lia.
  reflexivity.
Qed.

Lemma responsive_fate E w : responsive E -> fate E w = Ok tt.
Proof.
  intros HE. unfold fate. destruct (HE (List.length (wire w))) as [s ->].
  reflexivity.
Qed.

Lemma fibonacci_fuel_value E (HE : responsive E) fuel :
  forall n depth parent w,
    (Z.to_nat n < fuel)%nat ->
    fst (fibonacci_fuel E fuel n depth parent w) = Ok (fibonacci_value n).
Proof.
  induction fuel as [|fuel IH]; intros n depth parent w Hfuel; [lia|].
  simpl. unfold fibonacci_frame, bind at 1 2, uuid4. simpl.
  rewrite post_run_eq, (responsive_fate _ _ HE).
  set (run_id := str_uuid _). set (w1 := sent _ _).
  unfold try_except, bind at 1.
  destruct (Z.leb_spec n 1) as [Hle|Hgt].
  - unfold ret at 1, bind at 1. rewrite patch_run_eq, (responsive_fate _ _ HE).
    unfold ret, fibonacci_value. simpl.
    destruct (Z.leb_spec n 1); [reflexivity | lia].
  - unfold bind at 1.
    pose proof (IH (n - 1) (depth + 1) (Some run_id) w1 ltac:(lia)) as Ha.
    destruct (fibonacci_fuel E fuel (n - 1) (depth + 1) (Some run_id) w1)
      as [ra w2]. simpl in Ha. subst ra.
    unfold bind at 1.
    pose proof (IH (n - 2) (depth + 1) (Some run_id) w2 ltac:(lia)) as Hb.
    destruct (fibonacci_fuel E fuel (n - 2) (depth + 1) (Some run_id) w2)
      as [rb w3]. simpl in Hb. subst rb.
    unfold ret at 1, bind at 1.
    rewrite patch_run_eq, (responsive_fate _ _ HE). unfold ret. simpl.
    rewrite (fibonacci_value_step n Hgt). reflexivity.
Qed.

(** C9, as stated, fails: the value is not independent of tracing.  With the
    service unreachable [fibonacci(0)] and [fibonacci(5)] raise instead of
    returning 0 and 5; when only the update of [fibonacci(1)] fails, the
    result is computed and the call still raises. *)
Lemma fibonacci_raises_when_tracing_fails :
  fst (fibonacci E_down 0 0 None world0) = Raise "ConnectionError" /\
  fst (fibonacci E_down 5 0 None world0) = Raise "ConnectionError" /\
  fst (fibonacci E_flaky 1 0 None world0) = Raise "ReadTimeout".
Proof. repeat split. Qed.

(** ** Transport failures *)

Lemma failed_fate E w e :
  net E (List.length (wire w)) = Failed e -> fate E w = Raise e.
Proof. intros H. unfold fate. rewrite H. reflexivity. Qed.

Lemma fibonacci_create_failure E n depth parent w e :
  net E (List.length (wire w)) = Failed e ->
  fibonacci E n depth parent w =
  (Raise e,
   mkWorld (S (draws w)) (S (ticks w))
     (wire w ++ [fibonacci_create E n parent w]) (events w)).
Proof.
  intros H. unfold fibonacci. simpl.
  unfold fibonacci_frame, bind at 1 2, uuid4. simpl.
  rewrite post_run_eq. unfold fate. simpl. rewrite H. reflexivity.
Qed.

(** C3, as stated, fails: with the service unreachable the exception leaves
    [post_run], leaves the traced [fibonacci(0)] (which should have returned
    0), and a later [patch_run] for the same run raises as well. *)
Lemma transport_failure_reaches_caller :
  let w1 := snd (post_run E_down (JObj []) "root" "R1" None world0) in
  fst (post_run E_down (JObj []) "root" "R1" None world0) = Raise "ConnectionError" /\
  fst (patch_run E_down "R1" (Some (JObj [])) None w1) = Raise "ConnectionError" /\
  fst (fibonacci E_down 0 0 None world0) = Raise "ConnectionError".
Proof. repeat split. Qed.

(** C3 (amended): [post_run] and [patch_run] return normally exactly when
    the transport answers their request, whatever the status, and raise what
    the transport raises; when the transport raises on the create request,
    the exception leaves [post_run] and leaves the [fibonacci] call that
    issued it, which then computes nothing and sends no update for that
    run. *)
Theorem create_failure_propagates
    E e data name run_id output error n depth parent w :
  net E (List.length (wire w)) = Failed e ->
  fst (post_run E data name run_id parent w) = Raise e /\
  fst (fibonacci E n depth parent w) = Raise e /\
  wire (snd (fibonacci E n depth parent w)) =
    (wire w ++ [fibonacci_create E n parent w])%list /\
  updates_of (next_run_id E w) (wire (snd (fibonacci E n depth parent w))) =
    updates_of (next_run_id E w) (wire w) /\
  (forall E' w',
      fst (post_run E' data name run_id parent w') =
        match net E' (List.length (wire w')) with
        | Responded _ => Ok tt
        | Failed e' => Raise e'
        end /\
      fst (patch_run E' run_id output error w') =
        match net E' (List.length (wire w')) with
        | Responded _ => Ok tt
        | Failed e' => Raise e'
        end).
Proof.
  intros H. rewrite post_run_eq, (fibonacci_create_failure _ _ _ _ _ _ H).
  rewrite (failed_fate _ _ _ H). simpl.
  split; [reflexivity|]. split; [reflexivity|]. split; [reflexivity|].
  split.
  - rewrite updates_of_app. unfold updates_of at 2. simpl. lia.
  - intros E' w'. rewrite post_run_eq, patch_run_eq. split; reflexivity.
Qed.

Lemma create_failure_propagates_witness :
  fst (post_run E_down (JObj []) "root" "R1" None world0) = Raise "ConnectionError" /\
  fst (fibonacci E_down 3 0 None world0) = Raise "ConnectionError".
Proof.
  pose proof (create_failure_propagates E_down "ConnectionError" (JObj [])
                "root" "R1" None None 3 0 None world0 eq_refl) as [H1 [H2 _]].
  split; [exact H1 | exact H2].
Defined.

(** ** Run identifiers *)

(** *** [str(uuid)] loses nothing of a 128-bit value *)








(** *** [uuid4] yields a 128-bit value *)



Lemma set_version4_nonneg i : 0 <= i -> 0 <= set_version4 i.
Proof.
  intros Hi. unfold set_version4.
  apply Z.lor_nonneg. split; [|apply Z.shiftl_nonneg; lia].
  apply Z.land_nonneg. left.
  apply Z.lor_nonneg. split; [|apply Z.shiftl_nonneg; lia].
  apply Z.land_nonneg. left. exact Hi.
Qed.




(** *** What a [fibonacci] call leaves behind *)

Lemma extends_refl w : extends w w.
Proof.
  split; [exists []; rewrite app_nil_r; reflexivity | split; lia].
Qed.

Lemma extends_trans w1 w2 w3 : extends w1 w2 -> extends w2 w3 -> extends w1 w3.
Proof.
  intros [[s1 H1] [Hd1 Ht1]] [[s2 H2] [Hd2 Ht2]].
  split; [|split; lia].
  exists (s1 ++ s2)%list. rewrite H2, H1, app_assoc. reflexivity.
Qed.

Lemma extends_sent w r : extends w (sent w r).
Proof. split; [exists [r]; reflexivity | simpl; split; lia]. Qed.

Lemma grows_ret {A} (a : A) : grows (ret a).
Proof. intros w. apply extends_refl. Qed.

Lemma grows_raise {A} (e : exn) : grows (@raise A e).
Proof. intros w. apply extends_refl. Qed.

Lemma grows_bind {A B} (m : M A) (k : A -> M B) :
  grows m -> (forall a, grows (k a)) -> grows (bind m k).
Proof.
  intros Hm Hk w. unfold bind. specialize (Hm w).
  destruct (m w) as [[a|e|] w1]; simpl in *; [|exact Hm|exact Hm].
  eapply extends_trans; [exact Hm | apply Hk].
Qed.

Lemma grows_try_except {A} (body : M A) (handler : exn -> M A) :
  grows body -> (forall e, grows (handler e)) -> grows (try_except body handler).
Proof.
  intros Hb Hh w. unfold try_except. specialize (Hb w).
  destruct (body w) as [[a|[msg|msg]|] w1]; simpl in *;
    [exact Hb| |exact Hb|exact Hb].
  eapply extends_trans; [exact Hb | apply Hh].
Qed.

Lemma grows_uuid4 E : grows (uuid4 E).
Proof.
  intros w. split; [exists []; simpl; rewrite app_nil_r; reflexivity|].
  simpl. split; lia.
Qed.

Lemma grows_post_run E data name run_id parent :
  grows (post_run E data name run_id parent).
Proof. intros w. rewrite post_run_eq. apply extends_sent. Qed.

Lemma grows_patch_run E run_id output error :
  grows (patch_run E run_id output error).
Proof. intros w. rewrite patch_run_eq. apply extends_sent. Qed.

Create HintDb grow.

#[local] Hint Resolve grows_ret grows_raise grows_uuid4 grows_post_run
  grows_patch_run : grow.

Lemma fibonacci_frame_eq E self n depth parent w :
  fibonacci_frame E self n depth parent w =
  let w1 := mkWorld (S (draws w)) (S (ticks w))
              (wire w ++ [fibonacci_create E n parent w]) (events w) in
  match fate E w with
  | Ok _ => fibonacci_rest E self n depth (next_run_id E w) w1
  | Raise e => (Raise e, w1)
  | OutOfFuel => (OutOfFuel, w1)
  end.
Proof.
  unfold fibonacci_frame, bind at 1 2, uuid4. simpl.
  rewrite post_run_eq. unfold sent, fate. simpl.
  destruct (net E (List.length (wire w))); reflexivity.
Qed.

Lemma grows_fibonacci_rest E self n depth run_id :
  (forall m d p, grows (self m d p)) ->
  grows (fibonacci_rest E self n depth run_id).
Proof.
  intros Hself. unfold fibonacci_rest.
  apply grows_try_except.
  - apply grows_bind.
    + destruct (n <=? 1); [auto with grow|].
      apply grows_bind; [apply Hself|]. intros a.
      apply grows_bind; [apply Hself|]. intros b. auto with grow.
    + intros r. apply grows_bind; auto with grow.
  - intros e. apply grows_bind; auto with grow.
Qed.

Lemma grows_fibonacci_fuel E fuel :
  forall n depth parent, grows (fibonacci_fuel E fuel n depth parent).
Proof.
  induction fuel as [|fuel IH]; intros n depth parent w.
  - apply extends_refl.
  - simpl. rewrite fibonacci_frame_eq. cbv zeta.
    set (w1 := mkWorld _ _ _ _).
    assert (H1 : extends w w1).
    { split; [eexists; reflexivity | simpl; split; lia]. }
    destruct (fate E w) as [[]|e|]; simpl; try exact H1.
    eapply extends_trans; [exact H1|].
    apply grows_fibonacci_rest. exact IH.
Qed.

(** A [fibonacci] call first draws a run id and sends the create request
    for it; everything else it sends comes after. *)
Lemma fibonacci_begins E n depth parent w :
  exists rest,
    wire (snd (fibonacci E n depth parent w)) =
      (wire w ++ fibonacci_create E n parent w :: rest)%list /\
    (draws w < draws (snd (fibonacci E n depth parent w)))%nat.
Proof.
  unfold fibonacci. simpl. rewrite fibonacci_frame_eq. cbv zeta.
  set (w1 := mkWorld _ _ _ _).
  destruct (fate E w) as [[]|e|]; simpl.
  - destruct (grows_fibonacci_rest E (fibonacci_fuel E (Z.to_nat n)) n depth
                (next_run_id E w) (grows_fibonacci_fuel E _) w1)
      as [[sfx Hs] [Hd _]].
    exists sfx. rewrite Hs. simpl. rewrite <- app_assoc.
    split; [reflexivity | simpl in Hd; lia].
  - exists []. split; [reflexivity | lia].
  - exists []. split; [reflexivity | lia].
Qed.

(** *** Run ids do not repeat unless the random source does *)









(** What happens when the assumption on the random source is dropped: were
    it to return the same bytes each time, the three calls of
    [fibonacci(2)] would all create a run under one and the same id. *)
Example run_ids_collide_when_draws_repeat :
  let w' := snd (fibonacci E_stuck 2 0 None world0) in
  draws w' = 3%nat /\
  creates_of "00000000-0000-4000-8000-000000000007" (wire w') = 3%nat.
Proof. split; reflexivity. Qed.



(** ** The fuel does not show *)

Lemma bind_ext {A B} (m1 m2 : M A) (k1 k2 : A -> M B) w :
  m1 w = m2 w -> (forall a w', k1 a w' = k2 a w') ->
  bind m1 k1 w = bind m2 k2 w.
Proof.
  intros Hm Hk. unfold bind. rewrite Hm.
  destruct (m2 w) as [[a|e|] w1]; [apply Hk | reflexivity | reflexivity].
Qed.

Lemma try_except_ext {A} (body1 body2 : M A) (handler : exn -> M A) w :
  body1 w = body2 w ->
  try_except body1 handler w = try_except body2 handler w.
Proof. intros H. unfold try_except. rewrite H. reflexivity. Qed.

Lemma fibonacci_rest_ext E self1 self2 n depth run_id w :
  (1 < n -> forall m d p w',
      (m = n - 1 \/ m = n - 2) -> self1 m d p w' = self2 m d p w') ->
  fibonacci_rest E self1 n depth run_id w =
  fibonacci_rest E self2 n depth run_id w.
Proof.
  intros Hself. unfold fibonacci_rest.
  apply try_except_ext. apply bind_ext; [|reflexivity].
  destruct (Z.leb_spec n 1) as [Hle|Hgt]; [reflexivity|].
  specialize (Hself Hgt).
  apply bind_ext; [apply Hself; left; reflexivity|].
  intros a w2.
  apply bind_ext; [apply Hself; right; reflexivity | reflexivity].
Qed.

(** Any call stack deeper than [n] gives [fibonacci(n)] the same outcome and
    the same final world. *)
Lemma fibonacci_fuel_stable E fuel1 :
  forall fuel2 n depth parent w,
    (Z.to_nat n < fuel1)%nat -> (Z.to_nat n < fuel2)%nat ->
    fibonacci_fuel E fuel1 n depth parent w =
    fibonacci_fuel E fuel2 n depth parent w.
Proof.
  induction fuel1 as [|fuel1 IH]; intros fuel2 n depth parent w H1 H2; [lia|].
  destruct fuel2 as [|fuel2]; [lia|].
  simpl. rewrite !fibonacci_frame_eq. cbv zeta.
  destruct (fate E w) as [[]|e|]; try reflexivity.
  apply fibonacci_rest_ext.
  intros Hn m d p w' [-> | ->]; apply IH; lia.
Qed.

(** C9 (amended): take a call stack with room for [frames] nested
    activations of [fibonacci], the interpreter's recursion limit being
    what bounds [frames], and an integer [n < frames] ([n <= 1] needs room
    for one).  When every request is answered, [fibonacci(n)] returns the
    n-th Fibonacci number for [n >= 0] (0, 1, then the sum of the two
    before) and [n] itself for every [n <= 1], negative [n] included,
    whatever room the stack has beyond [n].  With that much stack, and each
    call into [requests] coming back by answering or raising, the call ends
    by returning or raising.  Nothing is promised past the recursion limit,
    nor when a request raises or never comes back. *)
Theorem fibonacci_returns_nth
    E (HE : responsive E) (frames k : nat) n depth parent w :
  (Z.to_nat n < frames)%nat ->
  (k < frames)%nat ->
  fst (fibonacci_fuel E frames n depth parent w) =
    Ok (if n <=? 1 then n else nth_fibonacci (Z.to_nat n)) /\
  fst (fibonacci_fuel E frames (Z.of_nat k) depth parent w) =
    Ok (nth_fibonacci k) /\
  nth_fibonacci 0 = 0 /\
  nth_fibonacci 1 = 1 /\
  nth_fibonacci (S (S k)) = nth_fibonacci (S k) + nth_fibonacci k /\
  fibonacci_fuel E frames n depth parent w = fibonacci E n depth parent w /\
  (forall E', fst (fibonacci_fuel E' frames n depth parent w) <> OutOfFuel).
Proof.
  intros Hn Hk. split.
  { rewrite (fibonacci_fuel_value E HE) by exact Hn. reflexivity. }
  split.
  { rewrite (fibonacci_fuel_value E HE) by lia.
    rewrite fibonacci_value_nonneg by lia. rewrite Nat2Z.id. reflexivity. }
  split; [reflexivity|]. split; [reflexivity|]. split; [reflexivity|].
  split.
  { unfold fibonacci. apply fibonacci_fuel_stable; lia. }
  intros E'. apply fibonacci_fuel_terminates. exact Hn.
Qed.

Lemma E_up_responsive : responsive E_up.
Proof. intros k. exists 200. reflexivity. Defined.

Lemma fibonacci_returns_nth_witness :
  fst (fibonacci_fuel E_up 1000 10 0 None world0) = Ok 55 /\
  fst (fibonacci_fuel E_up 1000 (-3) 0 None world0) = Ok (-3).
Proof.
  split.
  - refine (proj1 (fibonacci_returns_nth E_up E_up_responsive 1000 10 10 0
                     None world0 _ _)); lia.
  - refine (proj1 (fibonacci_returns_nth E_up E_up_responsive 1000 0 (-3) 0
                     None world0 _ _)); lia.
Defined.

(** ** Children of a [fibonacci] call *)

Lemma bind_extends {A B} (m : M A) (k : A -> M B) w :
  (forall a, grows (k a)) -> extends (snd (m w)) (snd (bind m k w)).
Proof.
  intros Hk. unfold bind.
  destruct (m w) as [[a|e|] w1]; simpl; [apply Hk | apply extends_refl ..].
Qed.

Lemma try_except_extends {A} (body : M A) (handler : exn -> M A) w :
  (forall e, grows (handler e)) ->
  extends (snd (body w)) (snd (try_except body handler w)).
Proof.
  intros Hh. unfold try_except.
  destruct (body w) as [[a|[msg|msg]|] w1]; simpl; [|apply Hh| |];
    apply extends_refl.
Qed.

(** When the create request of a call with [n > 1] is answered, the next
    request on the wire is the create request of its first child, and that
    request names the caller's run id as parent. *)
Lemma fibonacci_first_child E n depth parent w :
  1 < n -> fate E w = Ok tt ->
  let w1 := mkWorld (S (draws w)) (S (ticks w))
              (wire w ++ [fibonacci_create E n parent w]) (events w) in
  exists rest,
    wire (snd (fibonacci E n depth parent w)) =
      (wire w ++ fibonacci_create E n parent w ::
       fibonacci_create E (n - 1) (Some (next_run_id E w)) w1 :: rest)%list.
Proof.
  intros Hn Hfate w1. unfold fibonacci. simpl fibonacci_fuel.
  rewrite fibonacci_frame_eq, Hfate. cbv zeta. fold w1.
  set (root := next_run_id E w).
  unfold fibonacci_rest.
  destruct (Z.leb_spec n 1) as [Hle|_]; [lia|].
  set (child := fibonacci_fuel E (Z.to_nat n) (n - 1) (depth + 1) (Some root)).
  match goal with
  | |- context [try_except (bind (bind child ?k1) ?k2) ?h] =>
      set (K1 := k1); set (K2 := k2); set (H := h)
  end.
  assert (HK1 : forall a, grows (K1 a)).
  { intros a. unfold K1. apply grows_bind; [apply grows_fibonacci_fuel|].
    intros b. auto with grow. }
  assert (HK2 : forall r, grows (K2 r)).
  { intros r. unfold K2. apply grows_bind; auto with grow. }
  assert (HH : forall e, grows (H e)).
  { intros e. unfold H. apply grows_bind; auto with grow. }
  pose proof (extends_trans _ _ _
                (extends_trans _ _ _ (bind_extends child K1 w1 HK1)
                   (bind_extends (bind child K1) K2 w1 HK2))
                (try_except_extends (bind (bind child K1) K2) H w1 HH))
    as [[sfx Hsfx] _].
  assert (Hchild : child w1 = fibonacci E (n - 1) (depth + 1) (Some root) w1).
  { unfold child, fibonacci. apply fibonacci_fuel_stable; lia. }
  destruct (fibonacci_begins E (n - 1) (depth + 1) (Some root) w1)
    as [rest [Hrest _]].
  rewrite <- Hchild in Hrest. rewrite Hrest in Hsfx.
  exists (rest ++ sfx)%list. rewrite Hsfx. unfold w1 at 1. simpl.
  rewrite <- !app_assoc. reflexivity.
Qed.

(** ** The notebook's own runs *)

(** [fibonacci(5)], the call the notebook makes, returns 5 and sends fifteen
    create and fifteen update requests. *)
Example fibonacci_5 :
  let out := fibonacci E_up 5 0 None world0 in
  fst out = Ok 5 /\
  List.length (filter is_post (wire (snd out))) = 15%nat /\
  List.length (filter is_patch (wire (snd out))) = 15%nat.
Proof. repeat split. Qed.

(** Root and child: the root's create request has no parent, each child's
    names the root, and the root is updated last. *)
Example fibonacci_2_tree :
  let w' := snd (fibonacci E_up 2 0 None world0) in
  let root := next_run_id E_up world0 in
  map (fun r => (verb r, jget "parent_run_id" (body r))) (wire w') =
    [(POST, Some JNull);
     (POST, Some (JStr root)); (PATCH, None);
     (POST, Some (JStr root)); (PATCH, None);
     (PATCH, None)] /\
  updates_of root (wire w') = 1%nat /\
  url (last (wire w') (fibonacci_create E_up 2 None world0)) = run_url root.
Proof. repeat split. Qed.

(** When the update carrying the result fails, the handler sends a second
    update for the same run, now with the error, and re-raises. *)
Example fibonacci_update_failure :
  let w' := snd (fibonacci E_flaky 1 0 None world0) in
  fst (fibonacci E_flaky 1 0 None world0) = Raise "ReadTimeout" /\
  updates_of (next_run_id E_flaky world0) (wire w') = 2%nat /\
  map (fun r => jget "error" (body r)) (wire w') =
    [None; Some JNull; Some (JStr "ReadTimeout")].
Proof. repeat split. Qed.

(** An error status is an answer like any other: nothing is raised and the
    value is returned. *)
Example fibonacci_status_500 :
  fst (fibonacci E_500 7 0 None world0) = Ok 13 /\
  fst (post_run E_500 (JObj []) "root" "R1" None world0) = Ok tt.
Proof. repeat split. Qed.

(** The first walkthrough, cells 2 to 4: one create request, then one update
    carrying the two events in the order they were appended. *)
Example walkthrough_first_run :
  let prog :=
    run_id <- first_run_create E_up ;;
    first_run_events ;;;
    first_run_update E_up run_id in
  let w' := snd (prog world0) in
  fst (prog world0) = Ok 200 /\
  map verb (wire w') = [POST; PATCH] /\
  updates_of (next_run_id E_up world0) (wire w') = 1%nat /\
  map (fun r => jget "events" (body r)) (wire w') =
    [None;
     Some (JList [JObj [("event_name", JStr "retry");
                        ("reason", JStr "never gonna give you up")];
                  JObj [("event_name", JStr "new_token");
                        ("value", JStr "foo")]])].
Proof. repeat split. Qed.

(** * Further properties of the traced example *)

#[local] Arguments next_run_id : simpl never.
#[local] Arguments str_uuid : simpl never.

(** ** How many runs a call logs *)

Lemma calls_nonneg n : 0 <= n -> calls n = calls_nat (Z.to_nat n).
Proof.
  intros Hn. unfold calls.
  destruct (Z.leb_spec n 1) as [Hle|Hgt]; [|reflexivity].
  assert (Hcases : n = 0 \/ n = 1) by lia.
  destruct Hcases as [-> | ->]; reflexivity.
Qed.

Lemma calls_step n :
  1 < n -> calls n = S (calls (n - 1) + calls (n - 2)).
Proof.
  intros Hn.
  rewrite (calls_nonneg n), (calls_nonneg (n - 1)), (calls_nonneg (n - 2))
    by lia.
  replace (Z.to_nat n) with (S (S (Z.to_nat (n - 2)))) by lia.
  replace (Z.to_nat (n - 1)) with (S (Z.to_nat (n - 2))) by lia.
  reflexivity.
Qed.

Lemma calls_leaf n : n <= 1 -> calls n = 1%nat.
Proof.
  intros Hn. unfold calls. destruct (Z.leb_spec n 1); [reflexivity | lia].
Qed.

Lemma calls_nat_closed_form k :
  Z.of_nat (calls_nat k) = 2 * nth_fibonacci (S k) - 1 /\
  Z.of_nat (calls_nat (S k)) = 2 * nth_fibonacci (S (S k)) - 1.
Proof.
  induction k as [|k [IH0 IH1]].
  - split; reflexivity.
  - split; [exact IH1|].
    change (calls_nat (S (S k))) with (S (calls_nat (S k) + calls_nat k)).
    change (nth_fibonacci (S (S (S k))))
      with (nth_fibonacci (S (S k)) + nth_fibonacci (S k)).
    lia.
Qed.

(** ** When a call returns *)

Lemma bind_ok_inv {A B} (m : M A) (k : A -> M B) w v w' :
  bind m k w = (Ok v, w') ->
  exists a w1, m w = (Ok a, w1) /\ k a w1 = (Ok v, w').
Proof.
  unfold bind. destruct (m w) as [[a|e|] w1]; intros H;
    [exists a, w1; split; [reflexivity | exact H] | discriminate H ..].
Qed.

Lemma try_except_ok_inv {A} (body : M A) (handler : exn -> M A) w v w' :
  (forall e w1 v1 w2, handler e w1 <> (Ok v1, w2)) ->
  try_except body handler w = (Ok v, w') ->
  body w = (Ok v, w').
Proof.
  intros Hh. unfold try_except.
  destruct (body w) as [[a|[msg|msg]|] w1]; intros H;
    [exact H | exfalso; exact (Hh _ _ _ _ H) | discriminate H ..].
Qed.

(** The handler of [fibonacci] always ends in [raise]. *)
Lemma handler_never_returns E run_id (e : exn) w (v : Z) w' :
  (patch_run E run_id None (Some (str e)) ;;; raise e) w <> (Ok v, w').
Proof.
  unfold bind. rewrite patch_run_eq.
  destruct (fate E w) as [[]|e'|]; discriminate.
Qed.

Lemma is_create_for_other E r data name run_id parent now :
  is_create_for r (create_request E data name run_id parent now) =
  String.eqb run_id r.
Proof. reflexivity. Qed.

(** A balanced log stays balanced when wrapped in the create and the update
    request of one more run. *)
Lemma balanced_wrap E data name run_id parent t1 output error t2 mid :
  balanced mid ->
  balanced (create_request E data name run_id parent t1 ::
            mid ++ [update_request E run_id output error t2]).
Proof.
  intros Hmid r. specialize (Hmid r).
  change (create_request E data name run_id parent t1 ::
          mid ++ [update_request E run_id output error t2])%list
    with ([create_request E data name run_id parent t1] ++
          mid ++ [update_request E run_id output error t2])%list.
  rewrite !creates_of_app, !updates_of_app.
  unfold creates_of at 1 3, updates_of at 1 3. simpl.
  rewrite is_create_for_other, is_update_for_update_request.
  destruct (String.eqb run_id r); simpl; lia.
Qed.

Lemma balanced_app l1 l2 : balanced l1 -> balanced l2 -> balanced (l1 ++ l2).
Proof.
  intros H1 H2 r. rewrite creates_of_app, updates_of_app, H1, H2. reflexivity.
Qed.

Lemma balanced_nil : balanced [].
Proof. intros r. reflexivity. Qed.

(** Everything a returning call has done. *)
Lemma fibonacci_fuel_returned E fuel :
  forall n depth parent w v w',
    fibonacci_fuel E fuel n depth parent w = (Ok v, w') ->
    v = fibonacci_value n /\
    draws w' = (draws w + calls n)%nat /\
    ticks w' = (ticks w + 2 * calls n)%nat /\
    events w' = events w /\
    exists mid now,
      wire w' =
        (wire w ++ fibonacci_create E n parent w ::
         mid ++ [fibonacci_result_update E w v now])%list /\
      List.length mid = (2 * (calls n - 1))%nat /\
      balanced mid.
Proof.
  induction fuel as [|fuel IH]; intros n depth parent w v w' H;
    [discriminate H|].
  simpl in H. rewrite fibonacci_frame_eq in H. cbv zeta in H.
  destruct (fate E w) as [[]|e|]; try discriminate H.
  fold (after_create E n parent w) in H.
  set (run_id := next_run_id E w) in *.
  unfold fibonacci_rest in H.
  apply try_except_ok_inv in H; [|intros; apply handler_never_returns].
  apply bind_ok_inv in H as (r & w2 & HX & HK).
  apply bind_ok_inv in HK as ([] & w3 & Hpatch & Hret).
  rewrite patch_run_eq in Hpatch. injection Hpatch as _ Hw3.
  unfold ret in Hret. injection Hret as Hv Hw'. subst r w3 w'.
  destruct (Z.leb_spec n 1) as [Hle|Hgt].
  - unfold ret in HX. injection HX as Hv Hw2. subst v w2.
    split. { unfold fibonacci_value. destruct (Z.leb_spec n 1); [reflexivity|lia]. }
    rewrite (calls_leaf n Hle). simpl.
    split; [lia|]. split; [lia|]. split; [reflexivity|].
    exists [], (clock E (S (ticks w))).
    split; [rewrite <- app_assoc; reflexivity|].
    split; [reflexivity | apply balanced_nil].
  - apply bind_ok_inv in HX as (a & wa & Ha & HX).
    apply bind_ok_inv in HX as (b & wb & Hb & Hr).
    unfold ret in Hr. injection Hr as Hv Hw2. subst v w2.
    apply IH in Ha. apply IH in Hb.
    destruct Ha as (Hva & Hda & Hta & Hea & mida & nowa & Hwa & Hla & Hba).
    destruct Hb as (Hvb & Hdb & Htb & Heb & midb & nowb & Hwb & Hlb & Hbb).
    split. { rewrite (fibonacci_value_step n Hgt). congruence. }
    rewrite (calls_step n Hgt). simpl in *.
    split; [lia|]. split; [lia|]. split; [congruence|].
    exists ((fibonacci_create E (n - 1) (Some run_id) (after_create E n parent w) ::
             mida ++ [fibonacci_result_update E (after_create E n parent w) a nowa]) ++
            (fibonacci_create E (n - 2) (Some run_id) wa ::
             midb ++ [fibonacci_result_update E wa b nowb]))%list,
           (clock E (ticks wb)).
    split.
    { rewrite Hwb, Hwa. simpl. rewrite <- !app_assoc. simpl.
      rewrite <- !app_assoc. reflexivity. }
    split.
    { simpl. rewrite !length_app. simpl. rewrite !length_app. simpl.
      assert (0 < calls (n - 1))%nat by (unfold calls; destruct (_ <=? _); [lia|];
        destruct (Z.to_nat (n - 1)) as [|[|?]]; simpl; lia).
      assert (0 < calls (n - 2))%nat by (unfold calls; destruct (_ <=? _); [lia|];
        destruct (Z.to_nat (n - 2)) as [|[|?]]; simpl; lia).
      lia. }
    apply balanced_app; apply balanced_wrap; assumption.
Qed.

Lemma fibonacci_returned E n depth parent w v :
  fst (fibonacci E n depth parent w) = Ok v ->
  fibonacci E n depth parent w = (Ok v, snd (fibonacci E n depth parent w)).
Proof.
  destruct (fibonacci E n depth parent w) as [r w']. simpl. intros ->.
  reflexivity.
Qed.

(** X1: under any behaviour of the transport, a value that [fibonacci(n)]
    returns is the right one: [n] itself for [n <= 1], the n-th Fibonacci
    number beyond.  Tracing can make the call raise, never return a wrong
    value. *)
Theorem fibonacci_never_returns_wrong_value E n depth parent w v :
  fst (fibonacci E n depth parent w) = Ok v ->
  v = (if n <=? 1 then n else nth_fibonacci (Z.to_nat n)).
Proof.
  intros H. apply fibonacci_returned in H.
  apply fibonacci_fuel_returned in H. exact (proj1 H).
Qed.

Lemma fibonacci_never_returns_wrong_value_witness :
  13 = (if 7 <=? 1 then 7 else nth_fibonacci (Z.to_nat 7)).
Proof.
  apply (fibonacci_never_returns_wrong_value E_500 7 0 None world0 13).
  reflexivity.
Defined.

(** X2: a [fibonacci] call that returns [v] has sent its own create request
    first and, as the last request of all, the update of its own run with
    outputs [{"result": v}] and no error; what its recursive calls sent lies
    in between. *)
Theorem fibonacci_returned_trace E n depth parent w v :
  fst (fibonacci E n depth parent w) = Ok v ->
  exists mid now,
    wire (snd (fibonacci E n depth parent w)) =
      (wire w ++ fibonacci_create E n parent w ::
       mid ++ [fibonacci_result_update E w v now])%list /\
    is_create_for (next_run_id E w) (fibonacci_create E n parent w) = true /\
    is_update_for (next_run_id E w) (fibonacci_result_update E w v now) = true /\
    jget "outputs" (body (fibonacci_result_update E w v now)) =
      Some (JObj [("result", JInt v)]) /\
    jget "error" (body (fibonacci_result_update E w v now)) = Some JNull.
Proof.
  intros H. apply fibonacci_returned in H.
  apply fibonacci_fuel_returned in H.
  destruct H as (_ & _ & _ & _ & mid & now & Hw & _).
  exists mid, now. split; [exact Hw|].
  split; [apply is_create_for_create_request|].
  split; [|split; reflexivity].
  unfold fibonacci_result_update.
  rewrite is_update_for_update_request. apply String.eqb_refl.
Qed.

Lemma fibonacci_returned_trace_witness :
  exists mid now,
    wire (snd (fibonacci E_up 3 0 None world0)) =
      (wire world0 ++ fibonacci_create E_up 3 None world0 ::
       mid ++ [fibonacci_result_update E_up world0 2 now])%list.
Proof.
  destruct (fibonacci_returned_trace E_up 3 0 None world0 2 eq_refl)
    as (mid & now & H & _).
  exists mid, now. exact H.
Defined.



(** X4: a [fibonacci(n)] call that returns has logged one run per
    activation: it has drawn [calls n] run ids and sent twice as many
    requests, one clock reading each; for [n >= 0] that is
    [2 * F(n+1) - 1] runs, [F] the Fibonacci numbers. *)
Theorem fibonacci_returned_cost E n depth parent w v (k : nat) :
  fst (fibonacci E n depth parent w) = Ok v ->
  let w' := snd (fibonacci E n depth parent w) in
  draws w' = (draws w + calls n)%nat /\
  List.length (wire w') = (List.length (wire w) + 2 * calls n)%nat /\
  ticks w' = (ticks w + 2 * calls n)%nat /\
  Z.of_nat (calls (Z.of_nat k)) = 2 * nth_fibonacci (S k) - 1.
Proof.
  intros H. apply fibonacci_returned in H.
  apply fibonacci_fuel_returned in H.
  destruct H as (_ & Hd & Ht & _ & mid & now & Hw & Hl & _).
  cbv zeta. split; [exact Hd|]. split; [|split; [exact Ht|]].
  - rewrite Hw, length_app. simpl. rewrite length_app, Hl. simpl.
    assert (0 < calls n)%nat.
    { unfold calls. destruct (n <=? 1); [lia|].
      destruct (Z.to_nat n) as [|[|?]]; simpl; lia. }
    lia.
  - rewrite calls_nonneg, Nat2Z.id by lia.
    exact (proj1 (calls_nat_closed_form k)).
Qed.

Lemma fibonacci_returned_cost_witness :
  draws (snd (fibonacci E_up 5 0 None world0)) = 15%nat /\
  List.length (wire (snd (fibonacci E_up 5 0 None world0))) = 30%nat.
Proof.
  destruct (fibonacci_returned_cost E_up 5 0 None world0 5 5 eq_refl)
    as (Hd & Hl & _).
  split; [exact Hd | exact Hl].
Defined.

(** ** When a call raises *)

Lemma try_except_raise_inv {A} (body : M A) (handler : exn -> M A) w msg w' :
  try_except body handler w = (Raise (Exception msg), w') ->
  exists msg0 w2,
    body w = (Raise (Exception msg0), w2) /\
    handler (Exception msg0) w2 = (Raise (Exception msg), w').
Proof.
  unfold try_except. destruct (body w) as [[a|[msg0|msg0]|] w2]; intros H;
    [discriminate H | exists msg0, w2; split; [reflexivity | exact H]
    | discriminate H ..].
Qed.

(** The protected part of an activation only adds to the wire. *)
Lemma grows_fibonacci_body E self n depth run_id :
  (forall m d p, grows (self m d p)) ->
  grows (result <- (if n <=? 1 then ret n
                    else a <- self (n - 1) (depth + 1) (Some run_id) ;;
                         b <- self (n - 2) (depth + 1) (Some run_id) ;;
                         ret (a + b)) ;;
         patch_run E run_id (Some (JObj [("result", JInt result)])) None ;;;
         ret result).
Proof.
  intros Hself. apply grows_bind.
  - destruct (n <=? 1); [auto with grow|].
    apply grows_bind; [apply Hself|]. intros a.
    apply grows_bind; [apply Hself|]. intros b. auto with grow.
  - intros r. apply grows_bind; auto with grow.
Qed.

(** X5: a run whose create request was answered is not left open by an
    instance of [Exception].  When the [fibonacci] call raises such an
    exception, the last request it has sent is an update of its own run
    carrying as error the text of the [Exception] caught and no outputs; the
    call re-raises the exception caught unless that last request failed
    too, in which case it raises the failure of that request.  (Exceptions
    outside [Exception] bypass the handler.) *)
Theorem fibonacci_raise_reports_error E n depth parent w msg :
  fate E w = Ok tt ->
  fst (fibonacci E n depth parent w) = Raise (Exception msg) ->
  exists mid msg0 now,
    wire (snd (fibonacci E n depth parent w)) =
      (wire w ++ fibonacci_create E n parent w ::
       mid ++ [fibonacci_error_update E w (Exception msg0) now])%list /\
    is_update_for (next_run_id E w)
      (fibonacci_error_update E w (Exception msg0) now) = true /\
    jget "error" (body (fibonacci_error_update E w (Exception msg0) now)) =
      Some (JStr msg0) /\
    jget "outputs" (body (fibonacci_error_update E w (Exception msg0) now)) =
      Some JNull /\
    Exception msg =
      match net E (S (List.length (wire w) + List.length mid)) with
      | Responded _ => Exception msg0
      | Failed e' => e'
      end.
Proof.
  intros Hfate H.
  destruct (fibonacci E n depth parent w) as [r w'] eqn:Hrun.
  simpl in H. subst r. cbn [snd].
  unfold fibonacci in Hrun. cbn [fibonacci_fuel] in Hrun.
  rewrite fibonacci_frame_eq, Hfate in Hrun. cbv zeta in Hrun.
  fold (after_create E n parent w) in Hrun.
  unfold fibonacci_rest in Hrun.
  apply try_except_raise_inv in Hrun as (msg0 & w2 & Hbody & Hhandler).
  pose proof (grows_fibonacci_body E (fibonacci_fuel E (Z.to_nat n)) n depth
                (next_run_id E w) (grows_fibonacci_fuel E _)
                (after_create E n parent w)) as [[mid Hmid] _].
  rewrite Hbody in Hmid. cbn [snd] in Hmid.
  unfold bind in Hhandler. rewrite patch_run_eq in Hhandler.
  exists mid, msg0, (clock E (ticks w2)).
  assert (Hlen : List.length (wire w2) =
                 S (List.length (wire w) + List.length mid)).
  { rewrite Hmid. unfold after_create. cbn [wire].
    rewrite !length_app. cbn [List.length]. lia. }
  rewrite <- Hlen.
  assert (Hwire : wire (sent w2 (update_request E (next_run_id E w) None
                                   (Some (str (Exception msg0)))
                                   (clock E (ticks w2)))) =
                  (wire w ++ fibonacci_create E n parent w ::
                   mid ++ [fibonacci_error_update E w (Exception msg0)
                             (clock E (ticks w2))])%list).
  { unfold sent. cbn [wire]. rewrite Hmid. unfold after_create. cbn [wire].
    rewrite <- !app_assoc. reflexivity. }
  split.
  { unfold fate in Hhandler.
    destruct (net E (List.length (wire w2))) as [s|e'];
      unfold raise in Hhandler; injection Hhandler as _ Hw'; subst w';
      exact Hwire. }
  split.
  { unfold fibonacci_error_update.
    rewrite is_update_for_update_request. apply String.eqb_refl. }
  split; [reflexivity|]. split; [reflexivity|].
  unfold fate in Hhandler.
  destruct (net E (List.length (wire w2))) as [s|e'];
    unfold raise in Hhandler; injection Hhandler as He _;
    rewrite He; reflexivity.
Qed.

Lemma fibonacci_raise_reports_error_witness :
  exists mid msg0 now,
    wire (snd (fibonacci (E_fails_at 1) 2 0 None world0)) =
      (wire world0 ++ fibonacci_create (E_fails_at 1) 2 None world0 ::
       mid ++ [fibonacci_error_update (E_fails_at 1) world0
                 (Exception msg0) now])%list.
Proof.
  destruct (fibonacci_raise_reports_error (E_fails_at 1) 2 0 None world0
              "ConnectionError" eq_refl eq_refl)
    as (mid & msg0 & now & H & _).
  exists mid, msg0, now. exact H.
Defined.

(** ** The [depth] argument *)

Lemma fibonacci_fuel_depth E fuel :
  forall n d1 d2 parent w,
    fibonacci_fuel E fuel n d1 parent w = fibonacci_fuel E fuel n d2 parent w.
Proof.
  induction fuel as [|fuel IH]; intros n d1 d2 parent w; [reflexivity|].
  simpl. rewrite !fibonacci_frame_eq. cbv zeta.
  destruct (fate E w) as [[]|e|]; try reflexivity.
  unfold fibonacci_rest.
  apply try_except_ext. apply bind_ext; [|reflexivity].
  destruct (n <=? 1); [reflexivity|].
  apply bind_ext; [apply IH|]. intros a w2.
  apply bind_ext; [apply IH | reflexivity].
Qed.

(** X6: the [depth] argument is dead: whatever depth a call is given, it
    returns or raises the same, sends the same requests and leaves the same
    world. *)
Theorem fibonacci_depth_irrelevant E n d1 d2 parent w :
  fibonacci E n d1 parent w = fibonacci E n d2 parent w.
Proof. unfold fibonacci. apply fibonacci_fuel_depth. Qed.

(** ** Invariants kept along a trace *)

Section Keeps.

Variable T : World -> World -> Prop.
Variable G : World -> Prop.
Hypothesis T_refl : forall w, T w w.
Hypothesis T_trans : forall w1 w2 w3, T w1 w2 -> T w2 w3 -> T w1 w3.
Hypothesis G_stable : forall w w', G w -> T w w' -> G w'.

Lemma keeps_ret {A} (a : A) : keeps T G (ret a).
Proof. intros w _. apply T_refl. Qed.

Lemma keeps_raise {A} (e : exn) : keeps T G (@raise A e).
Proof. intros w _. apply T_refl. Qed.

Lemma keeps_bind {A B} (m : M A) (k : A -> M B) :
  keeps T G m -> (forall a, keeps T G (k a)) -> keeps T G (bind m k).
Proof.
  intros Hm Hk w Hw. unfold bind. specialize (Hm w Hw).
  destruct (m w) as [[a|e|] w1]; simpl in *; [|exact Hm|exact Hm].
  eapply T_trans; [exact Hm|]. apply Hk. exact (G_stable _ _ Hw Hm).
Qed.

Lemma keeps_try_except {A} (body : M A) (handler : exn -> M A) :
  keeps T G body -> (forall e, keeps T G (handler e)) ->
  keeps T G (try_except body handler).
Proof.
  intros Hb Hh w Hw. unfold try_except. specialize (Hb w Hw).
  destruct (body w) as [[a|[msg|msg]|] w1]; simpl in *;
    [exact Hb| |exact Hb|exact Hb].
  eapply T_trans; [exact Hb|]. apply Hh. exact (G_stable _ _ Hw Hb).
Qed.

(** What an activation does after its create request keeps the invariant
    when the recursive calls under this run and the two updates of this run
    do. *)
Lemma keeps_fibonacci_rest E self n depth run_id :
  (forall m d, keeps T G (self m d (Some run_id))) ->
  (forall r,
      keeps T G (patch_run E run_id (Some (JObj [("result", JInt r)])) None)) ->
  (forall e, keeps T G (patch_run E run_id None (Some e))) ->
  keeps T G (fibonacci_rest E self n depth run_id).
Proof.
  intros Hself Hresult Herror. unfold fibonacci_rest.
  apply keeps_try_except.
  - apply keeps_bind.
    + destruct (n <=? 1); [apply keeps_ret|].
      apply keeps_bind; [apply Hself|]. intros a.
      apply keeps_bind; [apply Hself|]. intros b. apply keeps_ret.
    + intros r. apply keeps_bind; [apply Hresult|]. intros _. apply keeps_ret.
  - intros e. apply keeps_bind; [apply Herror|]. intros _. apply keeps_raise.
Qed.

End Keeps.

(** *** Sessions *)

Lemma session_step_refl E w : session_step E w w.
Proof.
  split; [lia|]. exists []. rewrite app_nil_r. split; [reflexivity|constructor].
Qed.

Lemma session_step_trans E w1 w2 w3 :
  session_step E w1 w2 -> session_step E w2 w3 -> session_step E w1 w3.
Proof.
  intros (Hd1 & s1 & Hw1 & Hs1) (Hd2 & s2 & Hw2 & Hs2).
  split; [lia|]. exists (s1 ++ s2)%list.
  rewrite Hw2, Hw1, app_assoc. split; [reflexivity|].
  apply Forall_app. split; [|exact Hs2].
  eapply Forall_impl; [|exact Hs1].
  intros r (j & Hj & Hr). exists j. split; [lia | exact Hr].
Qed.

Lemma concerns_create E j data name parent now :
  concerns E j (create_request E data name (run_id_at E j) parent now) = true.
Proof.
  unfold concerns. rewrite is_create_for_create_request. reflexivity.
Qed.

Lemma concerns_update E j output error now :
  concerns E j (update_request E (run_id_at E j) output error now) = true.
Proof.
  unfold concerns. rewrite is_update_for_update_request, String.eqb_refl.
  apply orb_true_r.
Qed.

Lemma session_step_update E j w output error :
  (j < draws w)%nat ->
  session_step E w
    (sent w (update_request E (run_id_at E j) output error (clock E (ticks w)))).
Proof.
  intros Hj. split; [unfold sent; cbn [draws]; lia|].
  eexists. split; [reflexivity|].
  constructor; [|constructor].
  exists j. split; [exact Hj | apply concerns_update].
Qed.

Lemma session_step_fibonacci_fuel E fuel :
  forall n depth parent w,
    session_step E w (snd (fibonacci_fuel E fuel n depth parent w)).
Proof.
  induction fuel as [|fuel IH]; intros n depth parent w;
    [apply session_step_refl|].
  cbn [fibonacci_fuel]. rewrite fibonacci_frame_eq. cbv zeta.
  fold (after_create E n parent w).
  assert (H1 : session_step E w (after_create E n parent w)).
  { split; [unfold after_create; cbn [draws]; lia|].
    exists [fibonacci_create E n parent w]. split; [reflexivity|].
    constructor; [|constructor].
    exists (draws w). split; [unfold after_create; cbn [draws]; lia|].
    apply concerns_create. }
  destruct (fate E w) as [[]|e|]; cbn [snd]; try exact H1.
  eapply session_step_trans; [exact H1|].
  apply (keeps_fibonacci_rest (session_step E)
           (fun w2 => (draws w < draws w2)%nat)
           (session_step_refl E) (session_step_trans E)).
  - intros w2 w3 Hw2 [Hd _]. lia.
  - intros m d w2 _. apply IH.
  - intros r w2 Hw2. rewrite patch_run_eq.
    apply (session_step_update E (draws w)). exact Hw2.
  - intros e0 w2 Hw2. rewrite patch_run_eq.
    apply (session_step_update E (draws w)). exact Hw2.
  - unfold after_create. cbn [draws]. lia.
Qed.

(** A session stays one across a [fibonacci] call, however the call ends;
    a fresh notebook is one. *)
Lemma session_fibonacci E n depth parent w :
  session E w -> session E (snd (fibonacci E n depth parent w)).
Proof.
  intros Hs.
  destruct (session_step_fibonacci_fuel E (S (Z.to_nat n)) n depth parent w)
    as (Hd & sfx & Hw & Hsfx).
  fold (fibonacci E n depth parent w) in Hd, Hw, Hsfx.
  unfold session. rewrite Hw. apply Forall_app. split; [|exact Hsfx].
  eapply Forall_impl; [|exact Hs].
  intros r (j & Hj & Hr). exists j. split; [lia | exact Hr].
Qed.

Lemma session_world0 E : session E world0.
Proof. constructor. Qed.

(** *** Bookkeeping *)

Lemma accounted_refl w : accounted w w.
Proof.
  exists []. rewrite app_nil_r. simpl. repeat split; lia.
Qed.

Lemma accounted_trans w1 w2 w3 :
  accounted w1 w2 -> accounted w2 w3 -> accounted w1 w3.
Proof.
  intros (s1 & Hw1 & Ht1 & Hd1 & He1) (s2 & Hw2 & Ht2 & Hd2 & He2).
  exists (s1 ++ s2)%list.
  rewrite Hw2, Hw1, app_assoc, filter_app, !length_app.
  repeat split; [lia | lia | congruence].
Qed.

Lemma accounted_sent_update E w run_id output error :
  accounted w (sent w (update_request E run_id output error (clock E (ticks w)))).
Proof.
  eexists. split; [reflexivity|]. simpl. repeat split; lia.
Qed.

Lemma accounted_after_create E n parent w :
  accounted w (after_create E n parent w).
Proof.
  eexists. split; [reflexivity|]. simpl. repeat split; lia.
Qed.

Lemma accounted_fibonacci_fuel E fuel :
  forall n depth parent w,
    accounted w (snd (fibonacci_fuel E fuel n depth parent w)).
Proof.
  induction fuel as [|fuel IH]; intros n depth parent w;
    [apply accounted_refl|].
  simpl. rewrite fibonacci_frame_eq. cbv zeta.
  fold (after_create E n parent w).
  pose proof (accounted_after_create E n parent w) as H1.
  destruct (fate E w) as [[]|e|]; simpl; try exact H1.
  eapply accounted_trans; [exact H1|].
  apply (keeps_fibonacci_rest accounted (fun _ => True)
           accounted_refl accounted_trans (fun _ _ _ _ => I)); [| | |exact I].
  - intros m d w2 _. apply IH.
  - intros r w2 _. rewrite patch_run_eq. apply accounted_sent_update.
  - intros e0 w2 _. rewrite patch_run_eq. apply accounted_sent_update.
Qed.

(** X7: whatever the transport does and however the call ends, [fibonacci]
    takes exactly one clock reading per request it sends and one draw of
    the random source per create request, appends to the wire without
    touching what was sent before, and leaves the events list alone. *)
Theorem fibonacci_bookkeeping E n depth parent w :
  let w' := snd (fibonacci E n depth parent w) in
  exists sfx,
    wire w' = (wire w ++ sfx)%list /\
    ticks w' = (ticks w + List.length sfx)%nat /\
    draws w' = (draws w + List.length (filter is_post sfx))%nat /\
    events w' = events w.
Proof. apply accounted_fibonacci_fuel. Qed.

(** *** Shape of the requests *)

Lemma shaped_refl key w : shaped key w w.
Proof. exists []. rewrite app_nil_r. split; reflexivity. Qed.

Lemma shaped_trans key w1 w2 w3 :
  shaped key w1 w2 -> shaped key w2 w3 -> shaped key w1 w3.
Proof.
  intros (s1 & Hw1 & Hs1) (s2 & Hw2 & Hs2).
  exists (s1 ++ s2)%list. rewrite Hw2, Hw1, app_assoc, forallb_app, Hs1, Hs2.
  split; reflexivity.
Qed.

Lemma fibonacci_request_create E key n parent w :
  LANGSMITH_API_KEY E = Some key ->
  fibonacci_request key (fibonacci_create E n parent w) = true.
Proof.
  intros Hkey.
  unfold fibonacci_request, fibonacci_create, create_request, api_headers.
  rewrite Hkey. cbn [verb url body headers]. rewrite (String.eqb_refl key).
  reflexivity.
Qed.

Lemma fibonacci_request_result E key run_id r now :
  LANGSMITH_API_KEY E = Some key ->
  fibonacci_request key
    (update_request E run_id (Some (JObj [("result", JInt r)])) None now) = true.
Proof.
  intros Hkey. unfold fibonacci_request, update_request, api_headers.
  rewrite Hkey. cbn [verb url body headers]. rewrite (String.eqb_refl key).
  reflexivity.
Qed.

Lemma fibonacci_request_error E key run_id msg now :
  LANGSMITH_API_KEY E = Some key ->
  fibonacci_request key (update_request E run_id None (Some msg) now) = true.
Proof.
  intros Hkey. unfold fibonacci_request, update_request, api_headers.
  rewrite Hkey. cbn [verb url body headers]. rewrite (String.eqb_refl key).
  reflexivity.
Qed.

Lemma shaped_sent key w r :
  fibonacci_request key r = true -> shaped key w (sent w r).
Proof.
  intros Hr. exists [r]. split; [reflexivity|]. simpl. rewrite Hr. reflexivity.
Qed.

Lemma shaped_fibonacci_fuel E key fuel :
  LANGSMITH_API_KEY E = Some key ->
  forall n depth parent w,
    shaped key w (snd (fibonacci_fuel E fuel n depth parent w)).
Proof.
  intros Hkey.
  induction fuel as [|fuel IH]; intros n depth parent w;
    [apply shaped_refl|].
  simpl. rewrite fibonacci_frame_eq. cbv zeta.
  assert (H1 : shaped key w (after_create E n parent w)).
  { exists [fibonacci_create E n parent w]. split; [reflexivity|].
    cbn [forallb]. rewrite (fibonacci_request_create E key n parent w Hkey).
    reflexivity. }
  fold (after_create E n parent w).
  destruct (fate E w) as [[]|e|]; simpl; try exact H1.
  eapply shaped_trans; [exact H1|].
  apply (keeps_fibonacci_rest (shaped key) (fun _ => True)
           (shaped_refl key) (shaped_trans key) (fun _ _ _ _ => I));
    [| | |exact I].
  - intros m d w2 _. apply IH.
  - intros r w2 _. rewrite patch_run_eq. apply shaped_sent.
    apply fibonacci_request_result. exact Hkey.
  - intros e0 w2 _. rewrite patch_run_eq. apply shaped_sent.
    apply fibonacci_request_error. exact Hkey.
Qed.

(** X8: when [LANGSMITH_API_KEY] is set, every request a [fibonacci] call
    sends, under any transport and however the call ends, carries the
    header [x-api-key] with that key and is either a create request to
    [/runs] for a [chain] run named [fibonacci_recursive] in session
    [default] with inputs [{"n": ...}], or an update that carries exactly
    one of the two: a result with a null error, or an error with null
    outputs. *)
Theorem fibonacci_requests_shape E key n depth parent w :
  LANGSMITH_API_KEY E = Some key ->
  exists sfx,
    wire (snd (fibonacci E n depth parent w)) = (wire w ++ sfx)%list /\
    forallb (fibonacci_request key) sfx = true.
Proof. intros Hkey. apply shaped_fibonacci_fuel. exact Hkey. Qed.

Lemma fibonacci_requests_shape_witness :
  exists sfx,
    wire (snd (fibonacci (E_fails_at 3) 3 0 None world0)) =
      (wire world0 ++ sfx)%list /\
    forallb (fibonacci_request "ls-key") sfx = true.
Proof.
  apply (fibonacci_requests_shape (E_fails_at 3) "ls-key" 3 0 None world0).
  reflexivity.
Defined.

(** *** The trace is a tree *)














(** The checks above do reject: a child under a run nobody created, a
    second root, an update sent before its create request, a create request
    of another kind, an update with both an error and outputs or with
    neither, and a request whose API key is missing or another one. *)
Example linked_rejects :
  linked [] [create_request E_up (JObj []) "child" "R2" (Some "R1") "t"] = false /\
  linked ["R1"] [create_request E_up (JObj []) "root" "R3" None "t";
                 update_request E_up "R3" None None "t";
                 update_request E_up "R1" None None "t"] = false /\
  linked ["R1"] [update_request E_up "R2" None None "t";
                 create_request E_up (JObj []) "child" "R2" (Some "R1") "t"] = false /\
  linked ["R1"] [create_request E_up (JObj []) "child" "R2" (Some "R1") "t";
                 update_request E_up "R2" None None "t";
                 update_request E_up "R1" None None "t"] = true /\
  fibonacci_request "ls-key"
    (create_request E_up (JObj [("n", JInt 1)]) "root" "R1" None "t") = false /\
  fibonacci_request "ls-key"
    (update_request E_up "R1" (Some (JObj [("result", JInt 1)])) (Some "boom") "t")
    = false /\
  fibonacci_request "ls-key" (update_request E_up "R1" None None "t") = false /\
  fibonacci_request "ls-key"
    (update_request E_500 "R1" None (Some "boom") "t") = false /\
  fibonacci_request "other-key"
    (update_request E_up "R1" None (Some "boom") "t") = false /\
  fibonacci_request "ls-key"
    (update_request E_up "R1" None (Some "boom") "t") = true.
Proof. repeat split. Qed.

(** ** A call that does not recurse *)

Lemma fate_after_create E n parent w :
  fate E (after_create E n parent w) =
  match net E (S (List.length (wire w))) with
  | Responded _ => Ok tt
  | Failed e => Raise e
  end.
Proof.
  unfold fate, after_create. simpl. rewrite length_app. simpl.
  rewrite Nat.add_1_r. reflexivity.
Qed.

(** X10: for [n <= 1], negative [n] included, a [fibonacci] call whose two
    requests are answered returns [n] and logs exactly one run: its create
    request, then the update with outputs [{"result": n}]; it draws one run
    id and reads the clock twice. *)
Theorem fibonacci_leaf E n depth parent w s1 s2 :
  n <= 1 ->
  net E (List.length (wire w)) = Responded s1 ->
  net E (S (List.length (wire w))) = Responded s2 ->
  fibonacci E n depth parent w =
  (Ok n,
   mkWorld (S (draws w)) (S (S (ticks w)))
     (wire w ++ [fibonacci_create E n parent w;
                 fibonacci_result_update E w n (clock E (S (ticks w)))])
     (events w)).
Proof.
  intros Hn H1 H2. unfold fibonacci. simpl.
  rewrite fibonacci_frame_eq. cbv zeta. unfold fate at 1. rewrite H1.
  fold (after_create E n parent w).
  unfold fibonacci_rest, try_except, bind.
  destruct (Z.leb_spec n 1) as [_|Hgt]; [|lia].
  unfold ret at 1. rewrite patch_run_eq, fate_after_create, H2.
  unfold ret, sent, after_create, fibonacci_result_update. simpl.
  rewrite <- app_assoc. reflexivity.
Qed.

Lemma fibonacci_leaf_witness :
  fst (fibonacci E_500 (-4) 0 None world0) = Ok (-4) /\
  List.length (wire (snd (fibonacci E_500 (-4) 0 None world0))) = 2%nat.
Proof.
  rewrite (fibonacci_leaf E_500 (-4) 0 None world0 500 500);
    [split; reflexivity | lia | reflexivity | reflexivity].
Defined.

Lemma fibonacci_result_update_failure_eq E n depth parent w s1 msg :
  n <= 1 ->
  net E (List.length (wire w)) = Responded s1 ->
  net E (S (List.length (wire w))) = Failed (Exception msg) ->
  fibonacci E n depth parent w =
  (match net E (S (S (List.length (wire w)))) with
   | Responded _ => Raise (Exception msg)
   | Failed e' => Raise e'
   end,
   mkWorld (S (draws w)) (S (S (S (ticks w))))
     (wire w ++ [fibonacci_create E n parent w;
                 fibonacci_result_update E w n (clock E (S (ticks w)));
                 fibonacci_error_update E w (Exception msg)
                   (clock E (S (S (ticks w))))])
     (events w)).
Proof.
  intros Hn H1 H2. unfold fibonacci. cbn [fibonacci_fuel].
  rewrite fibonacci_frame_eq. cbv zeta. unfold fate at 1. rewrite H1.
  fold (after_create E n parent w).
  unfold fibonacci_rest, try_except, bind.
  destruct (Z.leb_spec n 1) as [_|Hgt]; [|lia].
  unfold ret at 1. rewrite patch_run_eq, fate_after_create, H2.
  rewrite patch_run_eq.
  unfold fate, sent, after_create. cbn [wire ticks draws events].
  rewrite !length_app. cbn [List.length].
  replace (List.length (wire w) + 1 + 1)%nat
    with (S (S (List.length (wire w)))) by lia.
  rewrite <- !app_assoc. cbn [app].
  destruct (net E (S (S (List.length (wire w))))) as [s3|e']; reflexivity.
Qed.

Lemma fibonacci_result_update_interrupted_eq E n depth parent w s1 msg :
  n <= 1 ->
  net E (List.length (wire w)) = Responded s1 ->
  net E (S (List.length (wire w))) = Failed (Interrupt msg) ->
  fibonacci E n depth parent w =
  (Raise (Interrupt msg),
   mkWorld (S (draws w)) (S (S (ticks w)))
     (wire w ++ [fibonacci_create E n parent w;
                 fibonacci_result_update E w n (clock E (S (ticks w)))])
     (events w)).
Proof.
  intros Hn H1 H2. unfold fibonacci. cbn [fibonacci_fuel].
  rewrite fibonacci_frame_eq. cbv zeta. unfold fate at 1. rewrite H1.
  fold (after_create E n parent w).
  unfold fibonacci_rest, try_except, bind.
  destruct (Z.leb_spec n 1) as [_|Hgt]; [|lia].
  unfold ret at 1. rewrite patch_run_eq, fate_after_create, H2.
  unfold sent, after_create. cbn [wire ticks draws events].
  rewrite <- !app_assoc. reflexivity.
Qed.

(** X11: what happens when the update that carries the result of a call
    with [n <= 1] fails depends on the exception, as [except Exception]
    has it.  On an instance of [Exception] the handler sends a second update
    for the same run, now with the exception's text as error and no outputs,
    and the call raises: the same exception if that second update is
    answered, the failure of the second update otherwise; the run ends up
    with two update requests.  On an exception outside [Exception]
    ([KeyboardInterrupt], [SystemExit]) the handler is skipped: no error
    update is sent, the run keeps its one update request and the exception
    leaves the call. *)
Theorem fibonacci_result_update_failure E n depth parent w s1 e :
  n <= 1 ->
  net E (List.length (wire w)) = Responded s1 ->
  net E (S (List.length (wire w))) = Failed e ->
  let out := fibonacci E n depth parent w in
  match e with
  | Exception msg =>
      wire (snd out) =
        (wire w ++ [fibonacci_create E n parent w;
                    fibonacci_result_update E w n (clock E (S (ticks w)));
                    update_request E (next_run_id E w) None (Some msg)
                      (clock E (S (S (ticks w))))])%list /\
      fst out =
        match net E (S (S (List.length (wire w)))) with
        | Responded _ => Raise e
        | Failed e' => Raise e'
        end /\
      updates_of (next_run_id E w) (wire (snd out)) =
        (updates_of (next_run_id E w) (wire w) + 2)%nat
  | Interrupt msg =>
      wire (snd out) =
        (wire w ++ [fibonacci_create E n parent w;
                    fibonacci_result_update E w n (clock E (S (ticks w)))])%list /\
      fst out = Raise e /\
      updates_of (next_run_id E w) (wire (snd out)) =
        (updates_of (next_run_id E w) (wire w) + 1)%nat
  end.
Proof.
  intros Hn H1 H2. cbv zeta. destruct e as [msg|msg].
  - rewrite (fibonacci_result_update_failure_eq E n depth parent w s1 msg
               Hn H1 H2).
    cbn [fst snd wire].
    split; [reflexivity|]. split; [reflexivity|].
    rewrite updates_of_app. unfold updates_of at 2.
    unfold fibonacci_create, fibonacci_result_update, fibonacci_error_update.
    cbn [filter]. rewrite is_update_for_create_request.
    rewrite !is_update_for_update_request, String.eqb_refl. reflexivity.
  - rewrite (fibonacci_result_update_interrupted_eq E n depth parent w s1 msg
               Hn H1 H2).
    cbn [fst snd wire].
    split; [reflexivity|]. split; [reflexivity|].
    rewrite updates_of_app. unfold updates_of at 2.
    unfold fibonacci_create, fibonacci_result_update.
    cbn [filter]. rewrite is_update_for_create_request.
    rewrite !is_update_for_update_request, String.eqb_refl. reflexivity.
Qed.

Lemma fibonacci_result_update_failure_witness :
  (fst (fibonacci (E_fails_at 1) 1 0 None world0) = Raise "ConnectionError" /\
   updates_of (next_run_id (E_fails_at 1) world0)
     (wire (snd (fibonacci (E_fails_at 1) 1 0 None world0))) = 2%nat) /\
  (fst (fibonacci (E_interrupted_at 1) 1 0 None world0) =
     Raise (Interrupt "KeyboardInterrupt") /\
   updates_of (next_run_id (E_interrupted_at 1) world0)
     (wire (snd (fibonacci (E_interrupted_at 1) 1 0 None world0))) = 1%nat).
Proof.
  split.
  - destruct (fibonacci_result_update_failure (E_fails_at 1) 1 0 None world0
                200 "ConnectionError") as (_ & Hr & Hu);
      [lia | reflexivity | reflexivity |].
    split; [exact Hr | exact Hu].
  - destruct (fibonacci_result_update_failure (E_interrupted_at 1) 1 0 None
                world0 200 (Interrupt "KeyboardInterrupt")) as (_ & Hr & Hu);
      [lia | reflexivity | reflexivity |].
    split; [exact Hr | exact Hu].
Defined.

(** ** The first walkthrough *)

Lemma first_run_eq E w s1 :
  net E (List.length (wire w)) = Responded s1 ->
  first_run E w =
  (match net E (S (List.length (wire w))) with
   | Responded s2 => Ok s2
   | Failed e => Raise e
   end,
   mkWorld (S (draws w)) (S (S (ticks w)))
     (wire w ++
      [first_run_create_request E (next_run_id E w) (clock E (ticks w));
       first_run_update_request E (next_run_id E w) (clock E (S (ticks w)))
         first_run_event_list])
     first_run_event_list).
Proof.
  intros H1.
  unfold first_run, first_run_create.
  unfold bind at 1 2. unfold uuid4 at 1.
  cbv beta iota zeta.
  fold (next_run_id E w).
  unfold bind at 1. unfold utcnow_isoformat at 1. cbv beta iota.
  cbn [ticks draws wire events].
  unfold bind at 1. unfold requests_post, send. cbn [ticks draws wire events].
  rewrite H1. cbv beta iota. unfold ret at 1.
  unfold first_run_events, first_run_update.
  unfold bind, events_reset, events_append, utcnow_isoformat, requests_patch,
    send.
  cbn [ticks draws wire events app].
  rewrite length_app. cbn [List.length]. rewrite Nat.add_1_r.
  rewrite <- app_assoc. cbn [app].
  destruct (net E (S (List.length (wire w)))) as [s2|e]; reflexivity.
Qed.

Lemma first_run_requests E run_id t1 t2 evs :
  is_create_for run_id (first_run_create_request E run_id t1) = true /\
  jkeys (body (first_run_create_request E run_id t1)) =
    ["id"; "name"; "run_type"; "start_time"; "inputs"; "tags"] /\
  is_update_for run_id (first_run_update_request E run_id t2 evs) = true /\
  jkeys (body (first_run_update_request E run_id t2 evs)) =
    ["outputs"; "end_time"; "events"] /\
  jget "events" (body (first_run_update_request E run_id t2 evs)) =
    Some (JList evs).
Proof.
  split.
  { unfold is_create_for, first_run_create_request. simpl.
    apply String.eqb_refl. }
  split; [reflexivity|]. split.
  { unfold is_update_for, first_run_update_request. simpl.
    apply String.eqb_refl. }
  split; reflexivity.
Qed.

(** X12: run in order, and the create request answered, the cells of the
    first walkthrough send two requests: a create request for a freshly
    drawn run id (without [parent_run_id] and [session_name]), then an update
    addressed to that same run which carries, next to [outputs] and
    [end_time], exactly the two events of cell 3 in the order appended,
    whatever the events list held before.  The status of the update is the
    value of the last cell; an exception of the update is raised. *)
Theorem first_run_trace E w s1 :
  net E (List.length (wire w)) = Responded s1 ->
  exists c u,
    wire (snd (first_run E w)) = (wire w ++ [c; u])%list /\
    is_create_for (next_run_id E w) c = true /\
    jkeys (body c) =
      ["id"; "name"; "run_type"; "start_time"; "inputs"; "tags"] /\
    is_update_for (next_run_id E w) u = true /\
    jkeys (body u) = ["outputs"; "end_time"; "events"] /\
    jget "events" (body u) = Some (JList first_run_event_list) /\
    events (snd (first_run E w)) = first_run_event_list /\
    fst (first_run E w) =
      match net E (S (List.length (wire w))) with
      | Responded s2 => Ok s2
      | Failed e => Raise e
      end.
Proof.
  intros H1. rewrite (first_run_eq E w s1 H1). cbn [fst snd wire events].
  destruct (first_run_requests E (next_run_id E w) (clock E (ticks w))
              (clock E (S (ticks w))) first_run_event_list)
    as (Hc & Hkc & Hu & Hku & He).
  eexists. eexists. split; [reflexivity|].
  split; [exact Hc|]. split; [exact Hkc|]. split; [exact Hu|].
  split; [exact Hku|]. split; [exact He|]. split; reflexivity.
Qed.

Lemma first_run_trace_witness :
  exists c u,
    wire (snd (first_run E_up
                 (mkWorld 0 0 [] [JObj [("event_name", JStr "stale")]]))) =
      [c; u] /\
    jget "events" (body u) = Some (JList first_run_event_list).
Proof.
  destruct (first_run_trace E_up
              (mkWorld 0 0 [] [JObj [("event_name", JStr "stale")]]) 200 eq_refl)
    as (c & u & Hw & _ & _ & _ & _ & He & _).
  exists c, u. split; [exact Hw | exact He].
Defined.
